(** * Interactive comments section: the comment store and its persistence

    A shallow embedding of [js/app.js] (class [CommentsApp]), [js/storage.js]
    (object [Storage]) and [js/utils.js] (object [Utils]).

    - The in-memory tree [this.data] is a record [Data]; a comment object is a
      [Comment], whose [replies] property is absent ([None]) or an array.
    - An object reference returned by [findComment] is a path into the tree
      ([Ref]); an assignment through the reference is an update at that path.
      The tree never shares an object between two places (object literals,
      [JSON.parse]), so paths identify objects.
    - JavaScript numbers that hold ids, scores and clock readings are [Z].
    - DOM updates, notifications and scrolling do not touch [this.data] and
      are left out; what a handler shows to the user is returned as a value
      where a property speaks about it. *)

From Stdlib Require Import ZArith QArith Qround String Ascii DecimalString.
From stdpp Require Import base option list gmap strings sorting.

Local Open Scope string_scope.
Local Open Scope list_scope.
Local Open Scope stdpp_scope.
Local Open Scope Z_scope.

Set Warnings "-register-all".

(** ** Data model *)

(** [{ image: { png, webp }, username }] *)
Record User := mkUser {
  image_png : string;
  image_webp : string;
  username : string
}.

(** A comment or a reply.  [replyingTo] is present on replies only; [replies]
    may be absent (the [undefined] of a missing property). *)
Inductive Comment := mkComment {
  id : Z;
  content : string;
  createdAt : string;
  score : Z;
  replyingTo : option string;
  user : User;
  replies : option (list Comment)
}.

(** [this.data]: [{ currentUser, comments }] *)
Record Data := mkData {
  currentUser : User;
  comments : list Comment
}.

Definition set_score (c : Comment) (s : Z) : Comment :=
  mkComment (id c) (content c) (createdAt c) s (replyingTo c) (user c) (replies c).

Definition set_content (c : Comment) (s : string) : Comment :=
  mkComment (id c) s (createdAt c) (score c) (replyingTo c) (user c) (replies c).

Definition set_replies (c : Comment) (rs : option (list Comment)) : Comment :=
  mkComment (id c) (content c) (createdAt c) (score c) (replyingTo c) (user c) rs.

Definition set_comments (d : Data) (cs : list Comment) : Data :=
  mkData (currentUser d) cs.

(** ** References into the tree *)

(** The object a lookup returns: the [i]-th top-level comment, or the [j]-th
    element of the [replies] array of the [i]-th top-level comment. *)
Inductive Ref :=
| InTop (i : nat)
| InReplies (i j : nat).

Definition shift (r : Ref) : Ref :=
  match r with
  | InTop i => InTop (S i)
  | InReplies i j => InReplies (S i) j
  end.

(** Reading through a reference. *)
Definition deref (cs : list Comment) (r : Ref) : option Comment :=
  match r with
  | InTop i => cs !! i
  | InReplies i j =>
      match cs !! i with
      | Some c => match replies c with
                  | Some rs => rs !! j
                  | None => None
                  end
      | None => None
      end
  end.

(** Writing through a reference: the object at the path is replaced by its
    image under [f]; every other object stays as it is. *)
Definition assign (f : Comment -> Comment) (r : Ref) (cs : list Comment) : list Comment :=
  match r with
  | InTop i => alter f i cs
  | InReplies i j =>
      alter (fun c => set_replies c (alter f j <$> replies c)) i cs
  end.

(** ** [Utils] *)

(** [Utils.generateId]: [Date.now() + Math.floor(Math.random() * 1000)].
    [now] is the clock reading in milliseconds and [rnd] the value of
    [Math.random()], a number in the interval from 0 (included) to 1
    (excluded). *)
Definition generateId (now : Z) (rnd : Q) : Z :=
  now + Qfloor (rnd * 1000).

(** ** Texts

    A text is held as a [string] of ASCII characters, one for each UTF-16
    code unit of the JavaScript string, so that [String.length] is its
    [length]; [ascii_text] says that a string is such a text.  Among the
    ASCII characters the white space that [String.prototype.trim] removes
    is TAB, LF, VT, FF, CR and SPACE.  Beyond ASCII [trim] also removes
    U+00A0, U+FEFF and the other Unicode spaces, which these definitions do
    not know: what is stated about [trim] is stated of ASCII texts. *)
Fixpoint ascii_text (s : string) : bool :=
  match s with
  | String a s' => (nat_of_ascii a <? 128)%nat && ascii_text s'
  | EmptyString => true
  end.

Definition is_space (a : ascii) : bool :=
  match nat_of_ascii a with
  | 9%nat | 10%nat | 11%nat | 12%nat | 13%nat | 32%nat => true
  | _ => false
  end.

Fixpoint trimStart (s : string) : string :=
  match s with
  | String a s' => if is_space a then trimStart s' else s
  | EmptyString => EmptyString
  end.

Fixpoint trimEnd (s : string) : string :=
  match s with
  | String a s' =>
      match trimEnd s' with
      | EmptyString => if is_space a then EmptyString else String a EmptyString
      | t => String a t
      end
  | EmptyString => EmptyString
  end.

Definition trim (s : string) : string := trimEnd (trimStart s).

(** [Utils.validateComment(content).isValid] *)
Definition validateComment (content : string) : bool :=
  let trimmed := trim content in
  if String.eqb trimmed EmptyString then false
  else if (String.length trimmed <? 3)%nat then false
  else if (1000 <? String.length trimmed)%nat then false
  else true.

(** ** [CommentsApp]: lookup *)

(** [array.findIndex(x => x.id === commentId)]; [None] stands for [-1]. *)
Fixpoint findIndex (commentId : Z) (l : list Comment) : option nat :=
  match l with
  | [] => None
  | c :: l' => if (id c =? commentId)%Z then Some 0%nat
               else S <$> findIndex commentId l'
  end.

(** [findComment(commentId)]: each top-level comment is compared first, then
    the elements of its [replies] array when the property is there; the
    first hit is returned, [None] stands for [null]. *)
Fixpoint findComment (commentId : Z) (cs : list Comment) : option Ref :=
  match cs with
  | [] => None
  | c :: cs' =>
      if (id c =? commentId)%Z then Some (InTop 0)
      else
        match replies c ≫= findIndex commentId with
        | Some j => Some (InReplies 0 j)
        | None => shift <$> findComment commentId cs'
        end
  end.

(** ** [CommentsApp]: handlers *)

(** How a handler ends: it runs to its last statement ([Success]), it
    leaves at the validation message ([Invalid]), or it leaves at
    [if (!comment) return] and its like ([NotFound]). *)
Inductive Outcome := Success | Invalid | NotFound.

(** What a handler reads from the platform while it builds a comment:
    [Date.now()], [Math.random()] and [new Date().toISOString()]. *)
Record Env := mkEnv {
  dateNow : Z;
  mathRandom : Q;
  isoNow : string
}.

(** [{ image: this.currentUser.image, username: this.currentUser.username }] *)
Definition authorOf (d : Data) : User :=
  mkUser (image_png (currentUser d)) (image_webp (currentUser d))
         (username (currentUser d)).

(** [handleAddComment()], [text] being the value of the text area. *)
Definition handleAddComment (e : Env) (text : string) (d : Data) : Outcome * Data :=
  let content := trim text in
  if negb (validateComment content) then (Invalid, d)
  else
    let newComment :=
      mkComment (generateId (dateNow e) (mathRandom e)) content (isoNow e) 0
                None (authorOf d) (Some []) in
    (Success, set_comments d (comments d ++ [newComment])).

(** ** Numbers

    A score is a JavaScript number, a double; the tree holds it as the
    integer it is the value of.  [toDouble n] is the double nearest to the
    integer [n], a tie going to the even significand of 53 bits: the result
    the platform gives to a sum or a difference of doubles whose exact
    value is [n].  Up to [2 ^ 53] in size every integer is a double. *)
Definition toDouble (n : Z) : Z :=
  let a := Z.abs n in
  if a <? 2 ^ 53 then n
  else
    let e := Z.log2 a - 52 in
    let q := a / 2 ^ e in
    let r := a mod 2 ^ e in
    let half := 2 ^ (e - 1) in
    let q' := if (half <? r) || ((r =? half) && Z.odd q) then q + 1 else q in
    Z.sgn n * (q' * 2 ^ e).

(** [Number.isSafeInteger(n)] for an integer [n]. *)
Definition isSafeInteger (n : Z) : bool := Z.abs n <? 2 ^ 53.

(** The score after a vote: [comment.score += 1] for ['upvote'],
    [Math.max(0, comment.score - 1)] for ['downvote'], no change for any
    other action.  The sum and the difference are those of doubles. *)
Definition voted (action : string) (c : Comment) : Comment :=
  if String.eqb action "upvote" then set_score c (toDouble (score c + 1))
  else if String.eqb action "downvote"
       then set_score c (Z.max 0 (toDouble (score c - 1)))
  else c.

(** [handleVote(commentId, action)]; the first component is the score
    written to the score element, [None] when the handler left early. *)
Definition handleVote (commentId : Z) (action : string) (d : Data) : option Z * Data :=
  match findComment commentId (comments d) with
  | None => (None, d)
  | Some r =>
      let cs := assign (voted action) r (comments d) in
      (score <$> deref cs r, set_comments d cs)
  end.

(** [parentComment.replies.push(newReply)], after [replies] has been set to
    an empty array where it was missing. *)
Definition pushReply (newReply : Comment) (parent : Comment) : Comment :=
  set_replies parent (Some (default [] (replies parent) ++ [newReply])).

(** [handleCreateReply({ parentId, replyingTo, content })] *)
Definition handleCreateReply (e : Env) (parentId : Z) (replyingTo content : string)
    (d : Data) : Outcome * Data :=
  match findComment parentId (comments d) with
  | None => (NotFound, d)
  | Some r =>
      let newReply :=
        mkComment (generateId (dateNow e) (mathRandom e)) content (isoNow e) 0
                  (Some replyingTo) (authorOf d) None in
      (Success, set_comments d (assign (pushReply newReply) r (comments d)))
  end.

(** [handleUpdateComment({ commentId, content })] *)
Definition handleUpdateComment (commentId : Z) (content : string) (d : Data)
    : Outcome * Data :=
  match findComment commentId (comments d) with
  | None => (NotFound, d)
  | Some r =>
      (Success, set_comments d (assign (fun c => set_content c content) r (comments d)))
  end.

(** The second loop of [removeComment]: the first top-level comment whose
    [replies] array holds the id loses that element. *)
Fixpoint removeReply (commentId : Z) (cs : list Comment) : list Comment :=
  match cs with
  | [] => []
  | c :: cs' =>
      match replies c with
      | Some rs =>
          match findIndex commentId rs with
          | Some j => set_replies c (Some (delete j rs)) :: cs'
          | None => c :: removeReply commentId cs'
          end
      | None => c :: removeReply commentId cs'
      end
  end.

(** [removeComment(commentId)]: [splice(index, 1)] on the top-level array
    when the id is there, on a [replies] array otherwise. *)
Definition removeComment (commentId : Z) (cs : list Comment) : list Comment :=
  match findIndex commentId cs with
  | Some i => delete i cs
  | None => removeReply commentId cs
  end.

(** [!this.deleteTargetId]: no target, or the number 0. *)
Definition noTarget (t : option Z) : bool :=
  match t with
  | None => true
  | Some z => (z =? 0)%Z
  end.

(** [handleDeleteConfirm()], [deleteTargetId] being what [showDeleteModal]
    stored. *)
Definition handleDeleteConfirm (deleteTargetId : option Z) (d : Data) : Outcome * Data :=
  match deleteTargetId with
  | None => (NotFound, d)
  | Some t =>
      if noTarget deleteTargetId then (NotFound, d)
      else
        match findComment t (comments d) with
        | None => (NotFound, d)
        | Some _ => (Success, set_comments d (removeComment t (comments d)))
        end
  end.

(** ** Ids and sizes *)

(** The ids [findComment] compares, in the order it compares them. *)
Definition ids_shallow (c : Comment) : list Z :=
  id c :: (id <$> default [] (replies c)).

Definition ids2 (cs : list Comment) : list Z := cs ≫= ids_shallow.

(** The ids of a comment and of everything below it, at any depth. *)
Fixpoint ids_of (c : Comment) : list Z :=
  match c with
  | mkComment i _ _ _ _ _ rs =>
      i :: match rs with
           | Some l => (fix go (l : list Comment) : list Z :=
                          match l with
                          | [] => []
                          | x :: l' => ids_of x ++ go l'
                          end) l
           | None => []
           end
  end.

Definition all_ids (cs : list Comment) : list Z := cs ≫= ids_of.

(** The ids below the second level: those of the replies of replies, and
    deeper. *)
Definition deep_ids_reply (r : Comment) : list Z :=
  all_ids (default [] (replies r)).

Definition deep_ids_top (c : Comment) : list Z :=
  default [] (replies c) ≫= deep_ids_reply.

Definition deep_ids (cs : list Comment) : list Z := cs ≫= deep_ids_top.

(** Number of nodes of a comment with everything below it. *)
Fixpoint node_size (c : Comment) : nat :=
  match c with
  | mkComment _ _ _ _ _ _ rs =>
      S match rs with
        | Some l => (fix go (l : list Comment) : nat :=
                       match l with
                       | [] => 0%nat
                       | x :: l' => (node_size x + go l')%nat
                       end) l
        | None => 0%nat
        end
  end.

Definition tree_size (cs : list Comment) : nat :=
  sum_list_with node_size cs.

(** Number of elements of the [replies] array, 0 when it is missing. *)
Definition reply_count (c : Comment) : nat := length (default [] (replies c)).

(** A reply has no replies of its own: its [replies] is missing or empty. *)
Definition leaf (r : Comment) : bool :=
  match replies r with
  | None | Some [] => true
  | Some (_ :: _) => false
  end.

(** The tree has two levels. *)
Definition two_level (cs : list Comment) : bool :=
  forallb (fun c => forallb leaf (default [] (replies c))) cs.

(** ** The seeded tree *)

Section Seed.

(** [new Date(t).toISOString()], for a time [t] in milliseconds. *)
Variable toISOString : Z -> string.

Definition daysAgo (now n : Z) : string :=
  toISOString (now - n * 24 * 60 * 60 * 1000).

Definition juliusomo : User :=
  mkUser "./images/avatars/image-juliusomo.png"
         "./images/avatars/image-juliusomo.webp" "juliusomo".

Definition amyrobson : User :=
  mkUser "./images/avatars/image-amyrobson.png"
         "./images/avatars/image-amyrobson.webp" "amyrobson".

Definition maxblagun : User :=
  mkUser "./images/avatars/image-maxblagun.png"
         "./images/avatars/image-maxblagun.webp" "maxblagun".

Definition ramsesmiron : User :=
  mkUser "./images/avatars/image-ramsesmiron.png"
         "./images/avatars/image-ramsesmiron.webp" "ramsesmiron".

(** [Storage.getInitialData()], [now] being the reading of [Date.now()]. *)
Definition getInitialData (now : Z) : Data :=
  mkData juliusomo
    [ mkComment 1
        "Impressive! Though it seems the drag feature could be improved. But overall it looks incredible. You've nailed the design and the responsiveness at various breakpoints works really well."
        (daysAgo now 30) 12 None amyrobson (Some []);
      mkComment 2
        "Woah, your project looks awesome! How long have you been coding for? I'm still new, but think I want to dive into React as well soon. Perhaps you can give me an insight on where I can learn React? Thanks!"
        (daysAgo now 14) 5 None maxblagun
        (Some
           [ mkComment 3
               "If you're still new, I'd recommend focusing on the fundamentals of HTML, CSS, and JS before considering React. It's very tempting to jump ahead but lay a solid foundation first."
               (daysAgo now 7) 4 (Some "maxblagun") ramsesmiron None;
             mkComment 4
               "I couldn't agree more with this. Everything moves so fast and it always seems like everyone knows the newest library/framework. But the fundamentals are what stay constant."
               (daysAgo now 2) 2 (Some "ramsesmiron") juliusomo None ]) ].

End Seed.

(** ** Sequences of operations *)

(** The store operations, each with what its handler receives. *)
Inductive Op :=
| AddTopLevelComment (e : Env) (text : string)
| AddReply (e : Env) (parentId : Z) (replyingTo content : string)
| UpdateContent (commentId : Z) (content : string)
| Vote (commentId : Z) (action : string)
| Remove (commentId : Z).

Definition step (d : Data) (o : Op) : Data :=
  match o with
  | AddTopLevelComment e text => (handleAddComment e text d).2
  | AddReply e parentId replyingTo content =>
      (handleCreateReply e parentId replyingTo content d).2
  | UpdateContent commentId content => (handleUpdateComment commentId content d).2
  | Vote commentId action => (handleVote commentId action d).2
  | Remove commentId => (handleDeleteConfirm (Some commentId) d).2
  end.

(** The state after a sequence of operations, the first of the list first. *)
Definition run (d : Data) (ops : list Op) : Data := fold_left step ops d.

(** The ids [generateId] has handed out along a run, the latest first; an
    operation that leaves before it builds a comment hands out none. *)
Definition generated (d : Data) (o : Op) : list Z :=
  match o with
  | AddTopLevelComment e text =>
      if validateComment (trim text) then [generateId (dateNow e) (mathRandom e)]
      else []
  | AddReply e parentId _ _ =>
      match findComment parentId (comments d) with
      | Some _ => [generateId (dateNow e) (mathRandom e)]
      | None => []
      end
  | _ => []
  end.

Fixpoint history (d : Data) (ops : list Op) : list Z :=
  match ops with
  | [] => []
  | o :: ops' => history (step d o) ops' ++ generated d o
  end.

(** A comment without what lies below its second level: its replies
    lose their own [replies]. *)
Definition prune (c : Comment) : Comment :=
  set_replies c
    match replies c with
    | Some rs => Some ((λ r, set_replies r None) <$> rs)
    | None => None
    end.

(** ** Sample inputs *)

(** A clock that prints every time as the same text; the seeded tree and
    the platform readings of two handler runs 100 ms apart. *)
Definition sampleISO (t : Z) : string := "2023-11-14T22:13:20.000Z".

Definition sampleTree : Data := getInitialData sampleISO 1700000000000.

(** The seeded tree with the score of its first comment at [2 ^ 53], as a
    stored or imported snapshot may hold it. *)
Definition sampleBigScore : Data :=
  set_comments sampleTree
    (assign (λ c, set_score c (2 ^ 53)) (InTop 0) (comments sampleTree)).

Definition sampleEnv : Env :=
  mkEnv 1700000000000 (1 # 2) "2023-11-14T22:13:20.000Z".

Definition sampleEnvLater : Env :=
  mkEnv 1700000000100 (2 # 5) "2023-11-14T22:13:20.100Z".

(** Reply 3 of the seeded tree, and the tree after a reply to it. *)
Definition sampleReply : Comment :=
  mkComment 3
    "If you're still new, I'd recommend focusing on the fundamentals of HTML, CSS, and JS before considering React. It's very tempting to jump ahead but lay a solid foundation first."
    (sampleISO 0) 4 (Some "maxblagun") ramsesmiron None.

Definition sampleDeepTree : Data :=
  run sampleTree [AddReply sampleEnv 3 "ramsesmiron" "Thanks, that helps"].

(** ** JavaScript values as [JSON.parse] builds them *)

(** A parsed JSON text.  Numbers are the integers; an object keeps its
    properties in insertion order. *)
Inductive JSON :=
| JNull
| JBool (b : bool)
| JNum (n : Z)
| JStr (s : string)
| JArr (l : list JSON)
| JObj (fields : list (string * JSON)).

(** A JavaScript value that is a JSON value or [undefined] ([None]). *)
Definition JsValue := option JSON.

(** Statements that may throw: [Ok] is normal completion. *)
Inductive result (A : Type) :=
| Ok (a : A)
| Throw.
Arguments Ok {A} a.
Arguments Throw {A}.

#[global] Instance result_ret : MRet result := @Ok.
#[global] Instance result_bind : MBind result :=
  fun A B f m => match m with Ok a => f a | Throw => Throw end.
#[global] Instance result_fmap : FMap result :=
  fun A B f m => match m with Ok a => Ok (f a) | Throw => Throw end.

(** [ToBoolean]: the value of an expression as a condition. *)
Definition truthy (v : JsValue) : bool :=
  match v with
  | None | Some JNull => false
  | Some (JBool b) => b
  | Some (JNum n) => negb (n =? 0)%Z
  | Some (JStr s) => negb (String.eqb s EmptyString)
  | Some (JArr _) | Some (JObj _) => true
  end.

(** [a && b] *)
Definition js_and (a b : JsValue) : JsValue := if truthy a then b else a.

(** [typeof v === 'object'] *)
Definition typeof_object (v : JsValue) : bool :=
  match v with
  | Some JNull | Some (JArr _) | Some (JObj _) => true
  | _ => false
  end.

(** [Array.isArray(v)] *)
Definition isArray (v : JsValue) : bool :=
  match v with
  | Some (JArr _) => true
  | _ => false
  end.

(** The value of the property [k] among the properties of an object. *)
Fixpoint field (k : string) (fields : list (string * JSON)) : JsValue :=
  match fields with
  | [] => None
  | (k', v) :: fields' => if String.eqb k' k then Some v else field k fields'
  end.

(** [v.k] for one of the property names of the data model, on a value that
    is neither [null] nor [undefined]: an object has the property or not,
    any other value has none of these. *)
Definition prop (v : JsValue) (k : string) : JsValue :=
  match v with
  | Some (JObj fields) => field k fields
  | _ => None
  end.

(** [v.k] where nothing guards the access: [TypeError] on [null] and
    [undefined]. *)
Definition prop_checked (v : JsValue) (k : string) : result JsValue :=
  match v with
  | None | Some JNull => Throw
  | _ => Ok (prop v k)
  end.

(** [obj.k = v], and a property of an object literal written after a
    spread: an existing property keeps its place. *)
Fixpoint set_field (k : string) (v : JSON) (fields : list (string * JSON))
    : list (string * JSON) :=
  match fields with
  | [] => [(k, v)]
  | (k', v') :: fields' =>
      if String.eqb k' k then (k, v) :: fields'
      else (k', v') :: set_field k v fields'
  end.

(** ** The tree as a JavaScript value *)

Definition userJS (u : User) : JSON :=
  JObj [ ("image", JObj [ ("png", JStr (image_png u));
                          ("webp", JStr (image_webp u)) ]);
         ("username", JStr (username u)) ].

Definition optional {A} (k : string) (f : A → JSON) (o : option A)
    : list (string * JSON) :=
  match o with
  | Some a => [(k, f a)]
  | None => []
  end.

Fixpoint commentJS (c : Comment) : JSON :=
  match c with
  | mkComment i ct ca s rt u rs =>
      JObj ([ ("id", JNum i); ("content", JStr ct); ("createdAt", JStr ca);
              ("score", JNum s) ]
            ++ optional "replyingTo" JStr rt
            ++ [ ("user", userJS u) ]
            ++ match rs with
               | Some l => [ ("replies", JArr (map commentJS l)) ]
               | None => []
               end)
  end.

(** [this.data] as the object [Storage] receives. *)
Definition toJS (d : Data) : JSON :=
  JObj [ ("currentUser", userJS (currentUser d));
         ("comments", JArr (map commentJS (comments d))) ].

(** ** Shape of a snapshot, in words *)

(** A value that is not empty: not [null], [false], [0] or the empty
    string. *)
Definition non_empty (v : JSON) : Prop :=
  v ≠ JNull ∧ v ≠ JBool false ∧ v ≠ JNum 0 ∧ v ≠ JStr EmptyString.

(** The rule in words: an object with a user object whose username is not
    empty, and with a [comments] property that is an array. *)
Definition shape_valid (data : JsValue) : Prop :=
  ∃ fields ufields name l,
    data = Some (JObj fields)
    ∧ field "currentUser" fields = Some (JObj ufields)
    ∧ field "username" ufields = Some name
    ∧ non_empty name
    ∧ field "comments" fields = Some (JArr l).

(** ** [Storage] *)

Definition STORAGE_KEY : string := "interactive-comments-data".

(** [validateData(data)]: the value of the chain of [&&]. *)
Definition validateData (data : JsValue) : JsValue :=
  js_and
    (js_and
       (js_and
          (js_and
             (js_and data (Some (JBool (typeof_object data))))
             (prop data "currentUser"))
          (Some (JBool (typeof_object (prop data "currentUser")))))
       (prop (prop data "currentUser") "username"))
    (Some (JBool (isArray (prop data "comments")))).

(** [localStorage]: out of reach (every access throws), or the items. *)
Inductive LocalStorage :=
| Blocked
| Items (m : gmap string string).

Definition getItem (ls : LocalStorage) (k : string) : result (option string) :=
  match ls with
  | Blocked => Throw
  | Items m => Ok (m !! k)
  end.

(** [if (stored)]: neither [null] nor the empty string. *)
Definition present (stored : option string) : bool :=
  match stored with
  | Some s => negb (String.eqb s EmptyString)
  | None => false
  end.

(** [s.includes(t)] on strings. *)
Fixpoint includes (s t : string) : bool :=
  String.prefix t s
  || match s with
     | String _ s' => includes s' t
     | EmptyString => false
     end.

Section Platform.

(** [JSON.parse]; [None] is its [SyntaxError]. *)
Variable JSON_parse : string → option JSON.

(** [JSON.stringify] *)
Variable JSON_stringify : JSON → string.

(** Whether [localStorage.setItem(k, v)] goes through on the items [m]
    (it throws when the quota is exceeded). *)
Variable setItem_ok : gmap string string → string → string → bool.

(** [new Date(t).toISOString()] for a time [t] in milliseconds. *)
Variable toISOString : Z → string.

(** [parseInt(s)]; [None] is [NaN]. *)
Variable parseInt : string → option Z.

(** [convertToISODate(a)] on an array [a]: what [a.includes] and
    [parseInt(a)] make of it. *)
Variable convertArray : list JSON → result string.

Definition setItem (ls : LocalStorage) (k v : string) : result LocalStorage :=
  match ls with
  | Blocked => Throw
  | Items m => if setItem_ok m k v then Ok (Items (<[k:=v]> m)) else Throw
  end.

(** [Storage.getInitialData()] as an object. *)
Definition getInitialDataJS (now : Z) : JSON :=
  toJS (getInitialData toISOString now).

(** The [try] block of [getData]: [Ok None] when it falls through. *)
Definition getData_try (ls : LocalStorage) : result (option JSON) :=
  stored ← getItem ls STORAGE_KEY;
  match stored with
  | Some s =>
      if present stored then
        match JSON_parse s with
        | Some data =>
            if truthy (validateData (Some data)) then Ok (Some data)
            else Ok None
        | None => Throw
        end
      else Ok None
  | None => Ok None
  end.

(** [Storage.getData()] *)
Definition getData (ls : LocalStorage) (now : Z) : JSON :=
  match getData_try ls with
  | Ok (Some data) => data
  | Ok None | Throw => getInitialDataJS now
  end.

(** [Storage.saveData(data)]: what it returns and the storage after. *)
Definition saveData (data : JSON) (ls : LocalStorage) : bool * LocalStorage :=
  if truthy (validateData (Some data)) then
    match setItem ls STORAGE_KEY (JSON_stringify data) with
    | Ok ls' => (true, ls')
    | Throw => (false, ls)
    end
  else (false, ls).

(** [Storage.importData(jsonString)] *)
Definition importData (jsonString : string) (ls : LocalStorage)
    : bool * LocalStorage :=
  match JSON_parse jsonString with
  | Some data =>
      if truthy (validateData (Some data)) then (true, (saveData data ls).2)
      else (false, ls)
  | None => (false, ls)
  end.

(** [CommentsApp.importData(file)], [text] being the text of the file:
    the data the application holds afterwards, [held] before. *)
Definition appImportData (text : string) (held : JSON) (ls : LocalStorage)
    (now : Z) : JSON * LocalStorage :=
  let '(ok, ls') := importData text ls in
  if ok then (getData ls' now, ls') else (held, ls').

(** [new Date(t).toISOString()] where [t] may be any number:
    [RangeError] outside the range of dates. *)
Definition dateISO (t : Z) : result string :=
  if (Z.abs t <=? 8640000000000000)%Z then Ok (toISOString t) else Throw.

(** [Storage.convertToISODate(timeString)] on a string, [now] being the
    time of [new Date()]. *)
Definition convertToISODate (now : Z) (timeString : string) : result string :=
  let ago (unit : Z) : result string :=
    match parseInt timeString with
    | Some timeValue => dateISO (now - timeValue * unit)
    | None => Throw
    end in
  if includes timeString "month" then ago (30 * 24 * 60 * 60 * 1000)
  else if includes timeString "week" then ago (7 * 24 * 60 * 60 * 1000)
  else if includes timeString "day" then ago (24 * 60 * 60 * 1000)
  else if includes timeString "hour" then ago (60 * 60 * 1000)
  else if includes timeString "minute" then ago (60 * 1000)
  else Ok (toISOString now).

(** [convertToISODate(v)] on any value: only strings and arrays have
    [includes]. *)
Definition convertToISODate_value (now : Z) (v : JsValue) : result string :=
  match v with
  | Some (JStr s) => convertToISODate now s
  | Some (JArr a) => convertArray a
  | _ => Throw
  end.

(** [processComments(comments)] inside [loadInitialData]:
    [{ ...comment, createdAt: ..., replies: ... }] for every element.
    The inner [ofReplies] is
    [comment.replies ? processComments(comment.replies) : []], the
    property looked up as [field] does. *)
Fixpoint processComments (now : Z) (comments : JSON) : result JSON :=
  match comments with
  | JArr l =>
      JArr <$>
        (fix each (l : list JSON) : result (list JSON) :=
           match l with
           | [] => Ok []
           | comment :: l' =>
               match comment with
               | JObj fields =>
                   created ← convertToISODate_value now (field "createdAt" fields);
                   replies ←
                     (fix ofReplies (fs : list (string * JSON)) : result JSON :=
                        match fs with
                        | [] => Ok (JArr [])
                        | (k, r) :: fs' =>
                            if String.eqb k "replies" then
                              if truthy (Some r) then processComments now r
                              else Ok (JArr [])
                            else ofReplies fs'
                        end) fields;
                   rest ← each l';
                   Ok (JObj (set_field "replies" replies
                               (set_field "createdAt" (JStr created) fields))
                         :: rest)
               | _ => Throw
               end
           end) l
  | _ => Throw
  end.

(** [Storage.loadInitialData()], [seed] being what [fetch('./data.json')]
    and [response.json()] deliver, [None] when either fails. *)
Definition loadInitialData (seed : option JSON) (now : Z) : JSON :=
  match seed with
  | Some (JObj fields) =>
      match field "comments" fields with
      | Some cs =>
          match processComments now cs with
          | Ok cs' => JObj (set_field "comments" cs' fields)
          | Throw => getInitialDataJS now
          end
      | None => getInitialDataJS now
      end
  | _ => getInitialDataJS now
  end.

(** [!this.data || this.data.comments.length === 0] *)
Definition noComments (data : JSON) : result bool :=
  if negb (truthy (Some data)) then Ok true
  else
    cs ← prop_checked (Some data) "comments";
    match cs with
    | None | Some JNull => Throw
    | Some (JArr l) => Ok (bool_decide (l = []))
    | Some (JStr s) => Ok (String.eqb s EmptyString)
    | Some (JObj fs) =>
        Ok match field "length" fs with
           | Some (JNum 0) => true
           | _ => false
           end
    | Some _ => Ok false
    end.

(** What [CommentsApp.loadData()] leaves behind: [this.data],
    [this.currentUser] and the storage. *)
Record Loaded := mkLoaded {
  loaded_data : JSON;
  loaded_user : JsValue;
  loaded_storage : LocalStorage
}.

(** The [catch] block of [CommentsApp.loadData()], entered with the
    storage as the [try] block left it. *)
Definition loadData_catch (ls : LocalStorage) (now : Z) : result Loaded :=
  let data := getInitialDataJS now in
  user ← prop_checked (Some data) "currentUser";
  Ok (mkLoaded data user ls).

(** [CommentsApp.loadData()], [seed] being what the fetch of the seed
    document delivers.  Each statement of the [try] block that throws
    hands over to the [catch] block. *)
Definition loadData (ls : LocalStorage) (seed : option JSON) (now : Z)
    : result Loaded :=
  let data := getData ls now in
  match noComments data with
  | Throw => loadData_catch ls now
  | Ok empty =>
      let '(data', ls') :=
        if empty then
          let fresh := loadInitialData seed now in
          (fresh, (saveData fresh ls).2)
        else (data, ls) in
      match prop_checked (Some data') "currentUser" with
      | Throw => loadData_catch ls' now
      | Ok user => Ok (mkLoaded data' user ls')
      end
  end.

(** The seed document as [loadInitialData] hands it on: with its comments
    processed, when it is an object whose comments can be processed. *)
Definition processed (seed : option JSON) (now : Z) (out : JSON) : Prop :=
  ∃ fields cs cs',
    seed = Some (JObj fields) ∧ field "comments" fields = Some cs
    ∧ processComments now cs = Ok cs'
    ∧ out = JObj (set_field "comments" cs' fields).

End Platform.

(** ** Induction on comments *)

Section CommentInduction.

Variable P : Comment → Prop.
Hypothesis step_case : ∀ i ct ca s rt u rs,
  Forall P (default [] rs) → P (mkComment i ct ca s rt u rs).

Fixpoint Comment_nested_ind (c : Comment) : P c :=
  match c with
  | mkComment i ct ca s rt u rs =>
      step_case i ct ca s rt u rs
        match rs as o return Forall P (default [] o) with
        | Some l =>
            (fix all (l : list Comment) : Forall P l :=
               match l with
               | [] => Forall_nil_2 P
               | x :: l' => Forall_cons_2 P x l' (Comment_nested_ind x) (all l')
               end) l
        | None => Forall_nil_2 P
        end
  end.

End CommentInduction.

(** ** Sample platform *)

(** A storage text and the snapshot it stands for, a seed document, and
    platform functions that are as simple as the samples need. *)
Definition sampleText : string := "snapshot".

Definition sampleStringify (j : JSON) : string := sampleText.

Definition sampleParse (s : string) : option JSON :=
  if String.eqb s sampleText then Some (toJS sampleTree) else None.

Definition sampleSetItem (m : gmap string string) (k v : string) : bool := true.

Definition sampleParseInt (s : string) : option Z := Some 1.

Definition sampleConvertArray (a : list JSON) : result string := Throw.

Definition sampleSeed : JSON :=
  JObj [ ("currentUser", userJS juliusomo);
         ("comments",
          JArr [ JObj [ ("id", JNum 1); ("content", JStr "Hello from the seed");
                        ("createdAt", JStr "1 month ago"); ("score", JNum 12);
                        ("user", userJS amyrobson); ("replies", JArr []) ] ]) ].

(** ** More of [Utils], [Components] and [CommentsApp] *)

(** The number and the unit [Utils.formatTimeAgo] prints. *)
Inductive TimeAgo :=
| JustNow
| Ago (n : Z) (unit : string).

(** [Utils.formatTimeAgo(timestamp)] up to the text: [now] is the time of
    [new Date()] and [date] that of [new Date(timestamp)], in milliseconds;
    [diffInSeconds] is [Math.floor((now - date) / 1000)]. *)
Definition timeAgo (now date : Z) : TimeAgo :=
  let diffInSeconds := (now - date) / 1000 in
  if diffInSeconds <? 60 then JustNow
  else if diffInSeconds <? 3600 then Ago (diffInSeconds / 60) "minutes"
  else if diffInSeconds <? 86400 then Ago (diffInSeconds / 3600) "hours"
  else if diffInSeconds <? 604800 then Ago (diffInSeconds / 86400) "days"
  else if diffInSeconds <? 2419200 then Ago (diffInSeconds / 604800) "weeks"
  else if diffInSeconds <? 29030400 then Ago (diffInSeconds / 2419200) "months"
  else Ago (diffInSeconds / 29030400) "years".

(** The text of a [TimeAgo]: ['just now'] or [`${n} ${unit} ago`]. *)
Definition timeAgoText (t : TimeAgo) : string :=
  match t with
  | JustNow => "just now"
  | Ago n unit =>
      (NilZero.string_of_int (Z.to_int n) ++ " " ++ unit ++ " ago")%string
  end.

(** [Utils.formatTimeAgo(timestamp)] *)
Definition formatTimeAgo (now date : Z) : string := timeAgoText (timeAgo now date).

(** The detail of the [createReply] event. *)
Record ReplyData := mkReplyData {
  rd_parentId : Z;
  rd_replyingTo : string;
  rd_content : string
}.

(** [Components.handleReplySubmit(formElement)]: [text] is the value of the
    text area, [parentId] and [replyingTo] are what the form carries in its
    data attributes.  [Some] is the detail of the event it dispatches,
    [None] stands for the validation message. *)
Definition handleReplySubmit (text : string) (parentId : Z) (replyingTo : string)
    : option ReplyData :=
  let content := trim text in
  let atMention := ("@" ++ replyingTo ++ " ")%string in
  let actualContent :=
    if String.prefix atMention content
    then trim (String.substring (String.length atMention)
                 (String.length content - String.length atMention) content)
    else content in
  if validateComment actualContent
  then Some (mkReplyData parentId replyingTo actualContent)
  else None.

(** [array.sort((a, b) => b.score - a.score)] puts an element before the
    first one whose score is not higher, and sorts what follows it; the
    sort of the platform is stable, and a stable sort has one result. *)
Fixpoint insertByScore (c : Comment) (l : list Comment) : list Comment :=
  match l with
  | [] => [c]
  | x :: l' =>
      if score c <? score x then x :: insertByScore c l' else c :: x :: l'
  end.

(** [sortedComments] of [renderComments]:
    [[...this.data.comments].sort((a, b) => b.score - a.score)]. *)
Definition sortedComments (cs : list Comment) : list Comment :=
  foldr insertByScore [] cs.

(** What a comment holds itself, its [replies] left aside. *)
Definition own (c : Comment) : Z * string * string * Z * option string * User :=
  (id c, content c, createdAt c, score c, replyingTo c, user c).

(** The scores and ids on the two levels, and every comment with a score
    that is not negative. *)
Definition scores_shallow (c : Comment) : list Z :=
  score c :: (score <$> default [] (replies c)).

Definition scores2 (cs : list Comment) : list Z := cs ≫= scores_shallow.

(** A text without white space, and a text that does not begin with white
    space. *)
Fixpoint no_space (s : string) : bool :=
  match s with
  | String a s' => negb (is_space a) && no_space s'
  | EmptyString => true
  end.

Definition no_lead (s : string) : Prop :=
  match s with
  | String a _ => is_space a = false
  | EmptyString => True
  end.

(** A text of white space only, and a text that does not end with white
    space. *)
Fixpoint all_space (s : string) : bool :=
  match s with
  | String a s' => is_space a && all_space s'
  | EmptyString => true
  end.

Fixpoint no_trail (s : string) : bool :=
  match s with
  | String a EmptyString => negb (is_space a)
  | String _ s' => no_trail s'
  | EmptyString => true
  end.

(** Every score a comment shows, its own and those of its replies, is at
    least 0; and every reply of a comment is without replies. *)
Definition scored (c : Comment) : Prop := Forall (λ s, 0 ≤ s) (scores_shallow c).

Definition flat (c : Comment) : Prop := forallb leaf (default [] (replies c)) = true.

(** A run whose replies all go to a parent that is not itself a reply. *)
Fixpoint top_targeted (d : Data) (ops : list Op) : Prop :=
  match ops with
  | [] => True
  | o :: ops' =>
      match o with
      | AddReply _ parentId _ _ =>
          ∀ i j, findComment parentId (comments d) ≠ Some (InReplies i j)
      | _ => True
      end
      ∧ top_targeted (step d o) ops'
  end.

(** ** More of [Storage] *)

(** [Storage.clearData()]: [localStorage.removeItem(this.STORAGE_KEY)]
    inside [try]. *)
Definition clearData (ls : LocalStorage) : LocalStorage :=
  match ls with
  | Blocked => Blocked
  | Items m => Items (delete STORAGE_KEY m)
  end.

Definition TEST_KEY : string := "__localStorage_test__".

Section MorePlatform.

Variable JSON_parse : string → option JSON.
Variable JSON_stringify : JSON → string.

(** [JSON.stringify(data, null, 2)] *)
Variable JSON_stringify_pretty : JSON → string.

Variable setItem_ok : gmap string string → string → string → bool.
Variable toISOString : Z → string.

(** [Storage.isStorageAvailable()]: what it returns and the storage
    after. *)
Definition isStorageAvailable (ls : LocalStorage) : bool * LocalStorage :=
  match setItem setItem_ok ls TEST_KEY TEST_KEY with
  | Ok (Items m) => (true, Items (delete TEST_KEY m))
  | Ok Blocked | Throw => (false, ls)
  end.

(** [Storage.exportData()] *)
Definition exportData (ls : LocalStorage) (now : Z) : string :=
  JSON_stringify_pretty (getData JSON_parse toISOString ls now).

(** [CommentsApp.resetData()], [confirmed] being the answer to the
    confirmation: the data held afterwards, [held] before. *)
Definition resetData (confirmed : bool) (held : JSON) (ls : LocalStorage) (now : Z)
    : JSON * LocalStorage :=
  if confirmed then (getInitialDataJS toISOString now, clearData ls)
  else (held, ls).

End MorePlatform.

(** * Lemmas *)

(** ** Lookup lemmas *)

Lemma ids_of_unfold (c : Comment) :
  ids_of c = id c :: all_ids (default [] (replies c)).
Proof.
  by destruct c as [i ct ca s rt u [l|]].
Qed.

Lemma node_size_unfold (c : Comment) :
  node_size c = S (tree_size (default [] (replies c))).
Proof.
  by destruct c as [i ct ca s rt u [l|]].
Qed.

Lemma findIndex_None (i : Z) (l : list Comment) :
  findIndex i l = None ↔ i ∉ (id <$> l).
Proof.
  induction l as [|c l IH]; simpl.
  - split; [intros _; apply not_elem_of_nil | done].
  - rewrite not_elem_of_cons. destruct (Z.eqb_spec (id c) i) as [->|Hne].
    + split; [done | intros [? _]; done].
    + rewrite fmap_None, IH.
      split; [intros H; split; [congruence | exact H] | intros [_ H]; exact H].
Qed.

Lemma findIndex_Some (i : Z) (l : list Comment) (k : nat) :
  findIndex i l = Some k →
  ∃ l1 c l2, l = l1 ++ c :: l2 ∧ length l1 = k ∧ id c = i ∧ i ∉ (id <$> l1).
Proof.
  revert k. induction l as [|c l IH]; simpl; intros k Hk; [done|].
  destruct (Z.eqb_spec (id c) i) as [Hi|Hne].
  - injection Hk as <-. exists [], c, l. repeat split; [done|]. apply not_elem_of_nil.
  - apply fmap_Some in Hk as (k' & Hk' & ->).
    destruct (IH _ Hk') as (l1 & x & l2 & -> & <- & Hx & Hl1).
    exists (c :: l1), x, l2. repeat split; [done|].
    rewrite fmap_cons, not_elem_of_cons. split; congruence.
Qed.

Lemma findIndex_is_Some (i : Z) (l : list Comment) :
  i ∈ (id <$> l) → is_Some (findIndex i l).
Proof.
  intros Hin. destruct (findIndex i l) eqn:E; [eauto|].
  by apply findIndex_None in E.
Qed.

Lemma findIndex_lookup (i : Z) (l : list Comment) (k : nat) :
  findIndex i l = Some k → ∃ c, l !! k = Some c ∧ id c = i.
Proof.
  intros (l1 & c & l2 & -> & <- & Hc & _)%findIndex_Some.
  exists c. split; [|done]. by rewrite list_lookup_middle.
Qed.

Lemma findIndex_first (l : list Comment) (k : nat) (c : Comment) :
  NoDup (id <$> l) → l !! k = Some c → findIndex (id c) l = Some k.
Proof.
  revert k. induction l as [|x l IH]; intros k Hnd Hk; [done|].
  rewrite fmap_cons in Hnd. apply NoDup_cons in Hnd as [Hx Hnd].
  destruct k as [|k]; simpl in *.
  - injection Hk as ->. by rewrite Z.eqb_refl.
  - destruct (Z.eqb_spec (id x) (id c)) as [Heq|_].
    + exfalso. apply Hx. rewrite Heq. apply list_elem_of_fmap.
      exists c. split; [done|]. by eapply list_elem_of_lookup_2.
    + by rewrite (IH k Hnd Hk).
Qed.

Lemma elem_of_ids_shallow (i : Z) (c : Comment) :
  i ∈ ids_shallow c ↔ id c = i ∨ i ∈ (id <$> default [] (replies c)).
Proof. unfold ids_shallow. rewrite elem_of_cons. intuition congruence. Qed.

Lemma ids2_cons (c : Comment) (cs : list Comment) :
  ids2 (c :: cs) = ids_shallow c ++ ids2 cs.
Proof. reflexivity. Qed.

Lemma findComment_None (i : Z) (cs : list Comment) :
  findComment i cs = None ↔ i ∉ ids2 cs.
Proof.
  induction cs as [|c cs IH].
  - split; [intros _; apply not_elem_of_nil | done].
  - rewrite ids2_cons, not_elem_of_app, elem_of_ids_shallow. simpl.
    destruct (Z.eqb_spec (id c) i) as [Hi|Hne].
    + split; [done | intros [H _]; exfalso; apply H; by left].
    + destruct (replies c) as [rs|] eqn:Er; simpl.
      * destruct (findIndex i rs) as [j|] eqn:Ej.
        -- split; [done|]. intros [H _]. exfalso. apply H. right.
           destruct (findIndex_Some _ _ _ Ej) as (l1 & x & l2 & -> & _ & <- & _).
           rewrite fmap_app, fmap_cons. apply elem_of_app. right. left.
        -- apply findIndex_None in Ej. rewrite fmap_None, IH. intuition.
      * rewrite fmap_None, IH. split; [|tauto].
        intros H; split; [|done]. intros [?|Hin]; [done|]. by apply elem_of_nil in Hin.
Qed.

Lemma deref_shift (c : Comment) (cs : list Comment) (r : Ref) :
  deref (c :: cs) (shift r) = deref cs r.
Proof. by destruct r. Qed.

Lemma findComment_deref (i : Z) (cs : list Comment) (r : Ref) :
  findComment i cs = Some r → ∃ c, deref cs r = Some c ∧ id c = i.
Proof.
  revert r. induction cs as [|c cs IH]; simpl; intros r Hr; [done|].
  destruct (Z.eqb_spec (id c) i) as [Hi|Hne].
  - injection Hr as <-. by exists c.
  - destruct (replies c) as [rs|] eqn:Er; simpl in Hr.
    + destruct (findIndex i rs) as [j|] eqn:Ej.
      * injection Hr as <-. simpl. rewrite Er. by apply findIndex_lookup.
      * apply fmap_Some in Hr as (r' & Hr' & ->). rewrite deref_shift. by apply IH.
    + apply fmap_Some in Hr as (r' & Hr' & ->). rewrite deref_shift. by apply IH.
Qed.

(** With distinct ids on the two levels, the lookup of a comment's id returns
    the very place the comment is at. *)
Lemma findComment_complete (cs : list Comment) (r : Ref) (c : Comment) :
  NoDup (ids2 cs) → deref cs r = Some c → findComment (id c) cs = Some r.
Proof.
  revert r. induction cs as [|x cs IH]; intros r Hnd Hr.
  - destruct r; simpl in Hr; by rewrite ?lookup_nil in Hr.
  - rewrite ids2_cons in Hnd. apply NoDup_app in Hnd as (Hx & Hdisj & Hcs).
    unfold ids_shallow in Hx. apply NoDup_cons in Hx as [Hxid Hxr].
    assert (Hrest : ∀ r', deref cs r' = Some c → id x ≠ id c ∧ id c ∉ (id <$> default [] (replies x))).
    { intros r' Hr'. pose proof (IH r' Hcs Hr') as Hf.
      assert (Hin : id c ∈ ids2 cs).
      { destruct (decide (id c ∈ ids2 cs)) as [|Hn]; [done|].
        apply findComment_None in Hn. congruence. }
      split.
      - intros Heq. apply (Hdisj (id c)); [|done]. rewrite <- Heq. left.
      - intros Hi. apply (Hdisj (id c)); [|done]. by right. }
    simpl. destruct r as [[|k]|[|k] j]; simpl in Hr.
    + injection Hr as ->. by rewrite Z.eqb_refl.
    + destruct (Hrest (InTop k) Hr) as [Hne Hnr].
      destruct (Z.eqb_spec (id x) (id c)); [done|].
      destruct (replies x) as [rs|]; simpl in *.
      * apply findIndex_None in Hnr as ->. by rewrite (IH (InTop k) Hcs Hr).
      * by rewrite (IH (InTop k) Hcs Hr).
    + destruct (replies x) as [rs|] eqn:Er; [|done]. simpl in *.
      destruct (Z.eqb_spec (id x) (id c)) as [Heq|_].
      * exfalso. apply Hxid. rewrite Heq. apply list_elem_of_fmap.
        exists c. split; [done|]. by eapply list_elem_of_lookup_2.
      * by rewrite (findIndex_first rs j c Hxr Hr).
    + destruct (Hrest (InReplies k j) Hr) as [Hne Hnr].
      destruct (Z.eqb_spec (id x) (id c)); [done|].
      destruct (replies x) as [rs|]; simpl in *.
      * apply findIndex_None in Hnr as ->. by rewrite (IH (InReplies k j) Hcs Hr).
      * by rewrite (IH (InReplies k j) Hcs Hr).
Qed.

(** ** Reading after writing *)

Lemma deref_assign_same (f : Comment → Comment) (cs : list Comment) (r : Ref) (c : Comment) :
  deref cs r = Some c → deref (assign f r cs) r = Some (f c).
Proof.
  destruct r as [i|i j]; simpl.
  - intros H. by rewrite list_lookup_alter_eq, H.
  - destruct (cs !! i) as [x|] eqn:Ex; [|done].
    destruct (replies x) as [rs|] eqn:Er; [|done]. intros H.
    rewrite list_lookup_alter_eq, Ex. simpl. rewrite Er. simpl.
    by rewrite list_lookup_alter_eq, H.
Qed.

(** A property [g] of a comment that does not look at its [replies] array
    reads the same everywhere else after a write that keeps [replies]. *)
Lemma deref_assign_other {A} (g : Comment → A) (f : Comment → Comment)
    (cs : list Comment) (r r' : Ref) :
  (∀ c rs, g (set_replies c rs) = g c) →
  (∀ c, replies (f c) = replies c) →
  r' ≠ r →
  g <$> deref (assign f r cs) r' = g <$> deref cs r'.
Proof.
  intros Hg Hf Hne. destruct r as [i|i j], r' as [i'|i' j']; simpl.
  - rewrite list_lookup_alter_ne; [done | congruence].
  - destruct (decide (i = i')) as [->|Hi].
    + rewrite list_lookup_alter_eq. destruct (cs !! i'); [|done]. simpl. by rewrite Hf.
    + by rewrite list_lookup_alter_ne.
  - destruct (decide (i = i')) as [->|Hi].
    + rewrite list_lookup_alter_eq. destruct (cs !! i'); [|done]. simpl. by rewrite Hg.
    + by rewrite list_lookup_alter_ne.
  - destruct (decide (i = i')) as [->|Hi].
    + rewrite list_lookup_alter_eq. destruct (cs !! i') as [x|]; [|done]. simpl.
      destruct (replies x) as [rs|]; [|done]. simpl.
      rewrite list_lookup_alter_ne; [done | congruence].
    + by rewrite list_lookup_alter_ne.
Qed.

Lemma voted_replies (action : string) (c : Comment) :
  replies (voted action c) = replies c.
Proof. unfold voted. by repeat case_match. Qed.

Lemma toDouble_exact (n : Z) : Z.abs n ≤ 2 ^ 53 → toDouble n = n.
Proof.
  intros Hn. unfold toDouble.
  destruct (Z.ltb_spec (Z.abs n) (2 ^ 53)) as [|Hge]; [done|].
  assert (Hn' : n = 2 ^ 53 ∨ n = - 2 ^ 53) by lia.
  destruct Hn' as [-> | ->]; vm_compute; reflexivity.
Qed.

Lemma toDouble_nonneg (n : Z) : 0 ≤ n → 0 ≤ toDouble n.
Proof.
  intros Hn. unfold toDouble.
  destruct (Z.abs n <? 2 ^ 53); [done|].
  set (e := Z.log2 (Z.abs n) - 52).
  assert (Hp : 0 ≤ 2 ^ e) by (apply Z.pow_nonneg; lia).
  assert (Hq : 0 ≤ Z.abs n / 2 ^ e).
  { destruct (Z.eq_dec (2 ^ e) 0) as [->|]; [by rewrite Z.div_0_r|].
    apply Z.div_pos; lia. }
  apply Z.mul_nonneg_nonneg; [apply Z.sgn_nonneg; lia|].
  apply Z.mul_nonneg_nonneg; [|done].
  destruct (_ || _); lia.
Qed.

Lemma voted_up (c : Comment) : score (voted "upvote" c) = toDouble (score c + 1).
Proof. reflexivity. Qed.

Lemma voted_down (c : Comment) :
  score (voted "downvote" c) = Z.max 0 (toDouble (score c - 1)).
Proof. reflexivity. Qed.

Lemma voted_up_safe (c : Comment) :
  isSafeInteger (score c) = true → score (voted "upvote" c) = score c + 1.
Proof.
  unfold isSafeInteger. intros H%Z.ltb_lt.
  rewrite voted_up. apply toDouble_exact. lia.
Qed.

Lemma voted_down_safe (c : Comment) :
  isSafeInteger (score c) = true →
  score (voted "downvote" c) = Z.max 0 (score c - 1).
Proof.
  unfold isSafeInteger. intros H%Z.ltb_lt.
  rewrite voted_down. f_equal. apply toDouble_exact. lia.
Qed.

Lemma handleVote_found (d : Data) (r : Ref) (c : Comment) (action : string) :
  findComment (id c) (comments d) = Some r →
  deref (comments d) r = Some c →
  (handleVote (id c) action d).1 = Some (score (voted action c))
  ∧ deref (comments (handleVote (id c) action d).2) r = Some (voted action c)
  ∧ ∀ r', r' ≠ r →
      score <$> deref (comments (handleVote (id c) action d).2) r'
      = score <$> deref (comments d) r'.
Proof.
  intros Hf Hd. unfold handleVote. rewrite Hf. simpl.
  rewrite (deref_assign_same _ _ _ _ Hd). repeat split.
  intros r' Hr'. apply deref_assign_other; [done | apply voted_replies | done].
Qed.

(** ** Ids on the two levels and below *)

Lemma all_ids_cons (c : Comment) (cs : list Comment) :
  all_ids (c :: cs) = ids_of c ++ all_ids cs.
Proof. reflexivity. Qed.

Lemma deep_ids_cons (c : Comment) (cs : list Comment) :
  deep_ids (c :: cs) = deep_ids_top c ++ deep_ids cs.
Proof. reflexivity. Qed.

Lemma all_ids_replies_split (rs : list Comment) :
  all_ids rs ≡ₚ (id <$> rs) ++ (rs ≫= deep_ids_reply).
Proof.
  induction rs as [|r rs IH]; [done|].
  rewrite all_ids_cons, ids_of_unfold, fmap_cons, bind_cons. simpl.
  fold (deep_ids_reply r). constructor.
  rewrite IH. rewrite !(assoc app). apply Permutation_app_tail, Permutation_app_comm.
Qed.

Lemma ids_of_split (c : Comment) :
  ids_of c ≡ₚ ids_shallow c ++ deep_ids_top c.
Proof.
  rewrite ids_of_unfold. unfold ids_shallow, deep_ids_top. simpl. constructor.
  apply all_ids_replies_split.
Qed.

Lemma all_ids_split (cs : list Comment) :
  all_ids cs ≡ₚ ids2 cs ++ deep_ids cs.
Proof.
  induction cs as [|c cs IH]; [done|].
  rewrite all_ids_cons, ids2_cons, deep_ids_cons, IH, ids_of_split.
  rewrite <- !(assoc app). apply Permutation_app_head.
  rewrite !(assoc app). apply Permutation_app_tail, Permutation_app_comm.
Qed.

Lemma ids2_all_ids (i : Z) (cs : list Comment) : i ∈ ids2 cs → i ∈ all_ids cs.
Proof. intros H. rewrite all_ids_split. apply elem_of_app. by left. Qed.

Lemma deep_not_shallow (i : Z) (cs : list Comment) :
  NoDup (all_ids cs) → i ∈ deep_ids cs → i ∉ ids2 cs.
Proof.
  rewrite all_ids_split. intros (_ & Hdisj & _)%NoDup_app Hdeep Hin.
  by apply (Hdisj i).
Qed.

Lemma NoDup_ids2 (cs : list Comment) : NoDup (all_ids cs) → NoDup (ids2 cs).
Proof. rewrite all_ids_split. by intros (? & _ & _)%NoDup_app. Qed.

(** ** Operations on an id the lookup does not find *)

Lemma not_in_ids2_top (i : Z) (cs : list Comment) : i ∉ ids2 cs → i ∉ (id <$> cs).
Proof.
  intros Hn (c & -> & Hc)%list_elem_of_fmap. apply Hn.
  apply list_elem_of_bind. exists c. split; [|done]. left.
Qed.

Lemma removeReply_absent (i : Z) (cs : list Comment) :
  i ∉ ids2 cs → removeReply i cs = cs.
Proof.
  induction cs as [|c cs IH]; [done|].
  rewrite ids2_cons, not_elem_of_app, elem_of_ids_shallow. intros [Hc Hcs]. simpl.
  destruct (replies c) as [rs|] eqn:Er; simpl in *.
  - assert (Hn : findIndex i rs = None) by (apply findIndex_None; tauto).
    by rewrite Hn, IH.
  - by rewrite IH.
Qed.

Lemma removeComment_absent (i : Z) (cs : list Comment) :
  i ∉ ids2 cs → removeComment i cs = cs.
Proof.
  intros Hn. unfold removeComment.
  assert (Ht : findIndex i cs = None) by by apply findIndex_None, not_in_ids2_top.
  rewrite Ht. by apply removeReply_absent.
Qed.

Lemma handlers_absent (d : Data) (i : Z) :
  i ∉ ids2 (comments d) →
  findComment i (comments d) = None
  ∧ (∀ action, handleVote i action d = (None, d))
  ∧ (∀ content, handleUpdateComment i content d = (NotFound, d))
  ∧ (∀ e replyingTo content, handleCreateReply e i replyingTo content d = (NotFound, d))
  ∧ handleDeleteConfirm (Some i) d = (NotFound, d)
  ∧ removeComment i (comments d) = comments d.
Proof.
  intros Hn. assert (Hf : findComment i (comments d) = None) by by apply findComment_None.
  unfold handleVote, handleUpdateComment, handleCreateReply, handleDeleteConfirm.
  rewrite Hf. repeat split; [| by apply removeComment_absent].
  by destruct noTarget.
Qed.

(** ** Removal *)

Lemma tree_size_app (l1 l2 : list Comment) :
  tree_size (l1 ++ l2) = (tree_size l1 + tree_size l2)%nat.
Proof. apply sum_list_with_app. Qed.

Lemma tree_size_cons (c : Comment) (cs : list Comment) :
  tree_size (c :: cs) = (node_size c + tree_size cs)%nat.
Proof. reflexivity. Qed.

Lemma node_size_set_replies (c : Comment) (rs : list Comment) :
  node_size (set_replies c (Some rs)) = S (tree_size rs).
Proof. by rewrite node_size_unfold. Qed.

(** The first loop of [removeComment] hits: the first top-level comment
    with the id goes, and everything below it with it. *)
Lemma removeComment_top (i : Z) (cs : list Comment) :
  i ∈ (id <$> cs) →
  ∃ l1 c l2, cs = l1 ++ c :: l2 ∧ id c = i ∧ (i ∉ (id <$> l1))
    ∧ removeComment i cs = l1 ++ l2
    ∧ tree_size cs = (tree_size (removeComment i cs) + node_size c)%nat.
Proof.
  intros [k Hk]%findIndex_is_Some. unfold removeComment. rewrite Hk.
  destruct (findIndex_Some _ _ _ Hk) as (l1 & c & l2 & -> & <- & Hc & Hl1).
  exists l1, c, l2. rewrite delete_middle. repeat split; [done..|].
  rewrite !tree_size_app, tree_size_cons. lia.
Qed.

Lemma removeReply_hit (i : Z) (cs : list Comment) :
  i ∉ (id <$> cs) → i ∈ ids2 cs →
  ∃ l1 c l2 rs1 r rs2,
    cs = l1 ++ c :: l2 ∧ replies c = Some (rs1 ++ r :: rs2) ∧ id r = i
    ∧ (i ∉ ids2 l1) ∧ (i ∉ (id <$> rs1))
    ∧ removeReply i cs = l1 ++ set_replies c (Some (rs1 ++ rs2)) :: l2.
Proof.
  induction cs as [|c cs IH]; [by intros _ ?%elem_of_nil|].
  rewrite fmap_cons, not_elem_of_cons, ids2_cons, elem_of_app, elem_of_ids_shallow.
  intros [Hc Htop] Hin. simpl.
  destruct (replies c) as [rs|] eqn:Er; simpl in *.
  - destruct (findIndex i rs) as [j|] eqn:Ej.
    + destruct (findIndex_Some _ _ _ Ej) as (rs1 & r & rs2 & -> & <- & Hr & Hrs1).
      exists [], c, cs, rs1, r, rs2. rewrite delete_middle.
      repeat split; [done.. | apply not_elem_of_nil | done].
    + apply findIndex_None in Ej.
      destruct IH as (l1 & x & l2 & rs1 & r & rs2 & -> & Hx & Hr & Hl1 & Hrs1 & Hrem);
        [done | destruct Hin as [[?|?]|?]; [congruence | done | done] |].
      exists (c :: l1), x, l2, rs1, r, rs2. rewrite Hrem.
      repeat split; [done.. | | done].
      rewrite ids2_cons, not_elem_of_app, elem_of_ids_shallow, Er. simpl.
      split; [|done]. intros [?|?]; [congruence | done].
  - destruct IH as (l1 & x & l2 & rs1 & r & rs2 & -> & Hx & Hr & Hl1 & Hrs1 & Hrem);
      [done | | ].
    { destruct Hin as [[?|Hin]|?]; [congruence | by apply elem_of_nil in Hin | done]. }
    exists (c :: l1), x, l2, rs1, r, rs2. rewrite Hrem.
    repeat split; [done.. | | done].
    rewrite ids2_cons, not_elem_of_app, elem_of_ids_shallow, Er. simpl.
    split; [|done]. intros [?|Hn]; [congruence | by apply elem_of_nil in Hn].
Qed.

(** The second loop of [removeComment] hits: the first reply with the id
    goes, and everything below it with it. *)
Lemma removeComment_reply (i : Z) (cs : list Comment) :
  i ∉ (id <$> cs) → i ∈ ids2 cs →
  ∃ l1 c l2 rs1 r rs2,
    cs = l1 ++ c :: l2 ∧ replies c = Some (rs1 ++ r :: rs2) ∧ id r = i
    ∧ (i ∉ ids2 l1) ∧ (i ∉ (id <$> rs1))
    ∧ removeComment i cs = l1 ++ set_replies c (Some (rs1 ++ rs2)) :: l2
    ∧ tree_size cs = (tree_size (removeComment i cs) + node_size r)%nat.
Proof.
  intros Htop Hin. unfold removeComment.
  apply findIndex_None in Htop as Hn. rewrite Hn.
  destruct (removeReply_hit i cs Htop Hin)
    as (l1 & c & l2 & rs1 & r & rs2 & -> & Hc & Hr & Hl1 & Hrs1 & Hrem).
  exists l1, c, l2, rs1, r, rs2. rewrite Hrem. repeat split; [done..|].
  rewrite !tree_size_app, !tree_size_cons, node_size_set_replies.
  rewrite (node_size_unfold c), Hc. simpl.
  rewrite !tree_size_app, tree_size_cons. lia.
Qed.

Lemma leaf_node_size (r : Comment) : leaf r = true → node_size r = 1%nat.
Proof.
  unfold leaf. rewrite node_size_unfold. by destruct (replies r) as [[|]|].
Qed.

Lemma leaves_tree_size (rs : list Comment) :
  forallb leaf rs = true → tree_size rs = length rs.
Proof.
  induction rs as [|r rs IH]; [done|]. intros H. simpl in H.
  apply andb_true_iff in H as [Hr Hrs].
  rewrite tree_size_cons, leaf_node_size, IH; done.
Qed.

Lemma two_level_app (l1 l2 : list Comment) :
  two_level (l1 ++ l2) = two_level l1 && two_level l2.
Proof. apply forallb_app. Qed.

Lemma two_level_cons (c : Comment) (cs : list Comment) :
  two_level (c :: cs) = forallb leaf (default [] (replies c)) && two_level cs.
Proof. reflexivity. Qed.

(** [handleDeleteConfirm] on an id the lookup finds is [removeComment],
    but for the id 0, which [!this.deleteTargetId] takes for no target. *)
Lemma handleDeleteConfirm_found (d : Data) (i : Z) :
  i ≠ 0 → i ∈ ids2 (comments d) →
  handleDeleteConfirm (Some i) d
  = (Success, set_comments d (removeComment i (comments d))).
Proof.
  intros Hi Hin. unfold handleDeleteConfirm. simpl.
  destruct (Z.eqb_spec i 0) as [|_]; [done|].
  destruct (findComment i (comments d)) eqn:E; [done|].
  by apply findComment_None in E.
Qed.

(** ** Shape of a snapshot *)

Lemma truthy_non_empty (v : JSON) : truthy (Some v) = true ↔ non_empty v.
Proof.
  unfold non_empty. destruct v as [|[]|n|s| |]; simpl;
    try (split; [intros _; repeat split; discriminate | reflexivity]);
    try (split; [discriminate | intros (? & ? & ? & ?); congruence]).
  - destruct (Z.eqb_spec n 0) as [->|Hn]; simpl.
    + split; [discriminate | intros (? & ? & ? & ?); congruence].
    + split; [intros _; repeat split; congruence | reflexivity].
  - destruct (String.eqb_spec s EmptyString) as [->|Hs]; simpl.
    + split; [discriminate | intros (? & ? & ? & ?); congruence].
    + split; [intros _; repeat split; congruence | reflexivity].
Qed.

Lemma truthy_js_and (a b : JsValue) :
  truthy (js_and a b) = truthy a && truthy b.
Proof.
  unfold js_and. destruct (truthy a) eqn:E; [reflexivity | exact E].
Qed.

(** The verdict of [validateData] as a condition is the conjunction of its
    six tests. *)
Lemma validateData_tests (data : JsValue) :
  truthy (validateData data)
  = truthy data && typeof_object data
    && truthy (prop data "currentUser")
    && typeof_object (prop data "currentUser")
    && truthy (prop (prop data "currentUser") "username")
    && isArray (prop data "comments").
Proof. unfold validateData. by rewrite !truthy_js_and. Qed.

Lemma validateData_shape (data : JsValue) :
  truthy (validateData data) = true ↔ shape_valid data.
Proof.
  rewrite validateData_tests. split.
  - intros H. repeat (apply andb_true_iff in H as [H ?]).
    destruct data as [[|b|n|s|l|fields]|]; try done. simpl in *.
    destruct (field "currentUser" fields) as [[|b|n|s|l|ufields]|] eqn:Eu; try done.
    simpl in *.
    destruct (field "username" ufields) as [name|] eqn:En; [|done].
    destruct (field "comments" fields) as [[|b|n|s|l|cf]|] eqn:Ec; try done.
    exists fields, ufields, name, l.
    split; [done|]. split; [done|]. split; [done|]. split; [|done].
    by apply truthy_non_empty.
  - intros (fields & ufields & name & l & -> & Hu & Hn & Hne & Hc).
    apply truthy_non_empty in Hne. simpl. rewrite Hu. simpl. by rewrite Hn, Hne, Hc.
Qed.

(** The verdict reads the [comments] property only as far as to see that
    it is an array. *)
Lemma field_set_field_eq (k : string) (v : JSON) (fields : list (string * JSON)) :
  field k (set_field k v fields) = Some v.
Proof.
  induction fields as [|[k' v'] fields IH]; simpl.
  - by rewrite String.eqb_refl.
  - destruct (String.eqb k' k) eqn:E; simpl; [by rewrite String.eqb_refl|].
    by rewrite E.
Qed.

Lemma field_set_field_ne (k k' : string) (v : JSON) (fields : list (string * JSON)) :
  k ≠ k' → field k' (set_field k v fields) = field k' fields.
Proof.
  intros Hne. induction fields as [|[k0 v0] fields IH]; simpl.
  - destruct (String.eqb_spec k k'); [done | reflexivity].
  - destruct (String.eqb_spec k0 k) as [->|Hk0]; simpl.
    + destruct (String.eqb_spec k k'); [done | reflexivity].
    + destruct (String.eqb_spec k0 k'); [reflexivity | exact IH].
Qed.

Lemma validateData_elements (fields : list (string * JSON)) (l l' : list JSON) :
  truthy (validateData (Some (JObj (set_field "comments" (JArr l) fields))))
  = truthy (validateData (Some (JObj (set_field "comments" (JArr l') fields)))).
Proof.
  rewrite !validateData_tests. simpl.
  rewrite !(field_set_field_ne "comments" "currentUser") by done.
  by rewrite !field_set_field_eq.
Qed.

(** ** The tree as a value: nothing is lost *)

Lemma toJS_valid (d : Data) :
  truthy (validateData (Some (toJS d))) = true ↔ username (currentUser d) ≠ EmptyString.
Proof.
  rewrite validateData_tests. simpl.
  destruct (String.eqb_spec (username (currentUser d)) EmptyString) as [->|Hne];
    simpl; split; done.
Qed.



Lemma userJS_inj (u u' : User) : userJS u = userJS u' → u = u'.
Proof. destruct u, u'. unfold userJS. simpl. intros H. by simplify_eq. Qed.

Lemma map_commentJS_inj (l : list Comment) :
  Forall (λ c, ∀ c', commentJS c = commentJS c' → c = c') l →
  ∀ l', map commentJS l = map commentJS l' → l = l'.
Proof.
  induction 1 as [|c l Hc _ IH]; intros [|c' l'] H; simpl in H; try done.
  injection H as H1 H2. f_equal; [by apply Hc | by apply IH].
Qed.

Lemma commentJS_inj (c c' : Comment) : commentJS c = commentJS c' → c = c'.
Proof.
  revert c'. induction c as [i ct ca s rt u rs IH] using Comment_nested_ind.
  intros [i' ct' ca' s' rt' u' rs'] H.
  cbn [commentJS] in H.
  remember (userJS u) as ju eqn:Eju. remember (userJS u') as ju' eqn:Eju'.
  assert (Hl : ∀ l l', rs = Some l → map commentJS l = map commentJS l' → l = l').
  { intros l l' -> Hm. by apply (map_commentJS_inj l IH). }
  destruct rt as [rt|], rt' as [rt'|], rs as [l|], rs' as [l'|];
    cbn [optional app] in H; inversion H; subst;
    match goal with
    | E : userJS _ = userJS _ |- _ => apply userJS_inj in E as ->
    end;
    try match goal with
        | E : map commentJS _ = map commentJS _ |- _ => apply (Hl _ _ eq_refl) in E as ->
        end;
    reflexivity.
Qed.

Lemma toJS_inj (d d' : Data) : toJS d = toJS d' → d = d'.
Proof.
  destruct d as [u cs], d' as [u' cs']. unfold toJS. simpl.
  remember (userJS u) as ju eqn:Eju. remember (userJS u') as ju' eqn:Eju'.
  intros H. inversion H as [[Hu Hc]]. subst. f_equal.
  - by apply userJS_inj.
  - eapply map_commentJS_inj; [|eassumption].
    apply Forall_forall. intros c _ c'. apply commentJS_inj.
Qed.

(** ** Saving and reading back *)

Section PlatformFacts.

Variable JSON_parse : string → option JSON.
Variable JSON_stringify : JSON → string.
Variable setItem_ok : gmap string string → string → string → bool.
Variable toISOString : Z → string.
Variable parseInt : string → option Z.
Variable convertArray : list JSON → result string.

Local Abbreviation getData := (getData JSON_parse toISOString).
Local Abbreviation saveData := (saveData JSON_stringify setItem_ok).
Local Abbreviation importData := (importData JSON_parse JSON_stringify setItem_ok).
Local Abbreviation loadInitialData := (loadInitialData toISOString parseInt convertArray).
Local Abbreviation loadData :=
  (loadData JSON_parse JSON_stringify setItem_ok toISOString parseInt convertArray).
Local Abbreviation initial := (getInitialDataJS toISOString).

Lemma saveData_written (data : JSON) (m : gmap string string) :
  truthy (validateData (Some data)) = true →
  setItem_ok m STORAGE_KEY (JSON_stringify data) = true →
  saveData data (Items m)
  = (true, Items (<[STORAGE_KEY := JSON_stringify data]> m)).
Proof. intros Hv Hok. unfold saveData, setItem. by rewrite Hv, Hok. Qed.

Lemma saveData_refused (data : JSON) (ls : LocalStorage) :
  (saveData data ls).1 = false → (saveData data ls).2 = ls.
Proof.
  unfold saveData. destruct (truthy _); [|done].
  by destruct (setItem _ _ _ _).
Qed.

Lemma getData_stored (m : gmap string string) (s : string) (data : JSON) (now : Z) :
  m !! STORAGE_KEY = Some s → s ≠ EmptyString → JSON_parse s = Some data →
  getData (Items m) now
  = if truthy (validateData (Some data)) then data else initial now.
Proof.
  intros Hm Hs Hp. unfold getData, getData_try. simpl. rewrite Hm. simpl.
  destruct (String.eqb_spec s EmptyString) as [|_]; [congruence|]. simpl.
  rewrite Hp. destruct (truthy (validateData (Some data))); reflexivity.
Qed.

Lemma initial_valid (now : Z) : truthy (validateData (Some (initial now))) = true.
Proof. reflexivity. Qed.

Lemma getData_valid (ls : LocalStorage) (now : Z) :
  truthy (validateData (Some (getData ls now))) = true.
Proof.
  unfold getData. destruct (getData_try _ ls) as [[data|]|] eqn:E;
    try apply initial_valid.
  unfold getData_try in E. destruct (getItem ls STORAGE_KEY) as [[s|]|]; try done.
  simpl in E. destruct (negb _); [|done].
  destruct (JSON_parse s) as [j|]; [|done].
  destruct (truthy (validateData (Some j))) eqn:Ev; [|done]. by simplify_eq.
Qed.

(** [getData] reads nothing but the item at the fixed key. *)
Lemma getData_fixed_key (m m' : gmap string string) (now : Z) :
  m !! STORAGE_KEY = m' !! STORAGE_KEY →
  getData (Items m) now = getData (Items m') now.
Proof. intros H. unfold getData, getData_try. simpl. by rewrite H. Qed.

Lemma importData_accepts (text : string) (ls : LocalStorage) :
  (importData text ls).1 = true
  ↔ ∃ data, JSON_parse text = Some data ∧ shape_valid (Some data).
Proof.
  unfold importData. destruct (JSON_parse text) as [data|].
  - destruct (truthy (validateData (Some data))) eqn:Ev; simpl.
    + split; [|done]. intros _. exists data. split; [done|].
      by apply validateData_shape.
    + split; [done|]. intros (data' & [= <-] & Hs).
      apply validateData_shape in Hs. congruence.
  - split; [done|]. by intros (? & ? & _).
Qed.

Lemma importData_rejects (text : string) (ls : LocalStorage) :
  (importData text ls).1 = false → (importData text ls).2 = ls.
Proof.
  unfold importData. destruct (JSON_parse text) as [data|]; [|done].
  by destruct (truthy _).
Qed.

(** ** Loading *)

Lemma loadData_catch_ok (ls : LocalStorage) (now : Z) :
  loadData_catch toISOString ls now
  = Ok (mkLoaded (initial now) (prop (Some (initial now)) "currentUser") ls).
Proof. reflexivity. Qed.

Lemma loadData_total (ls : LocalStorage) (seed : option JSON) (now : Z) :
  ∃ r, loadData ls seed now = Ok r.
Proof.
  unfold loadData. destruct (noComments _) as [empty|]; [|by eexists].
  destruct (if empty then _ else _) as [data' ls'].
  destruct (prop_checked _ _); by eexists.
Qed.

Lemma noComments_array (data : JSON) (fields : list (string * JSON)) (l : list JSON) :
  data = JObj fields → field "comments" fields = Some (JArr l) →
  noComments data = Ok (bool_decide (l = [])).
Proof. intros -> Hc. unfold noComments. simpl. by rewrite Hc. Qed.

Lemma valid_has_comments (data : JSON) :
  truthy (validateData (Some data)) = true →
  ∃ fields l, data = JObj fields ∧ field "comments" fields = Some (JArr l).
Proof.
  intros (fields & ? & ? & l & [= ->] & _ & _ & _ & Hc)%validateData_shape. eauto.
Qed.

Local Abbreviation processed := (processed toISOString parseInt convertArray).

Lemma loadInitialData_cases (seed : option JSON) (now : Z) :
  processed seed now (loadInitialData seed now)
  ∨ ((∀ out, ¬ processed seed now out) ∧ loadInitialData seed now = initial now).
Proof.
  unfold loadInitialData, processed.
  destruct seed as [[| | | | |fields]|];
    try (right; split; [by intros ? (? & ? & ? & ? & _) | done]).
  destruct (field "comments" fields) as [cs|] eqn:Ec.
  - destruct (processComments _ _ _ now cs) as [cs'|] eqn:Ep.
    + left. by exists fields, cs, cs'.
    + right. split; [|done]. intros out (? & ? & ? & [= <-] & ? & ? & _). congruence.
  - right. split; [|done]. intros out (? & ? & ? & [= <-] & ? & _). congruence.
Qed.

Lemma loadData_result (ls : LocalStorage) (seed : option JSON) (now : Z) :
  let stored := getData ls now in
  ∃ empty, noComments stored = Ok empty
    ∧ loadData ls seed now
      = if empty then
          Ok (mkLoaded (loadInitialData seed now)
                (prop (Some (loadInitialData seed now)) "currentUser")
                (saveData (loadInitialData seed now) ls).2)
        else Ok (mkLoaded stored (prop (Some stored) "currentUser") ls).
Proof.
  intros stored.
  destruct (valid_has_comments stored (getData_valid ls now)) as (fields & l & Hs & Hc).
  exists (bool_decide (l = [])). split; [by eapply noComments_array|].
  unfold loadData. fold stored. rewrite (noComments_array _ _ _ Hs Hc).
  destruct (bool_decide (l = [])).
  - destruct (loadInitialData_cases seed now) as [(f & cs & cs' & _ & _ & _ & ->)|[_ ->]];
      reflexivity.
  - by rewrite Hs.
Qed.

End PlatformFacts.

(** * The store *)

(** C4, as amended.  For every id present on the two levels of the tree,
    the vote goes to the comment the lookup finds, and when the score of
    that comment is a safe integer, below [2 ^ 53] in size, ['upvote']
    raises it by exactly 1 and ['downvote'] lowers it by 1 with 0 as the
    floor.  Whatever the score, a score of 0 stays 0 under ['downvote'] and
    0 is what the score element shows; a score that is not negative stays
    so; and the score of every other comment is what it was. *)
Theorem vote_changes_score (d : Data) (i : Z) :
  i ∈ ids2 (comments d) →
  ∃ r c,
    findComment i (comments d) = Some r
    ∧ deref (comments d) r = Some c ∧ id c = i
    ∧ let up := handleVote i "upvote" d in
      let down := handleVote i "downvote" d in
      (isSafeInteger (score c) = true →
       (up.1 = Some (score c + 1)
        ∧ score <$> deref (comments up.2) r = Some (score c + 1))
       ∧ (down.1 = Some (Z.max 0 (score c - 1))
          ∧ score <$> deref (comments down.2) r = Some (Z.max 0 (score c - 1))))
      ∧ (score c = 0 →
         down.1 = Some 0 ∧ score <$> deref (comments down.2) r = Some 0)
      ∧ (0 ≤ score c →
         ∀ s, up.1 = Some s ∨ down.1 = Some s → 0 ≤ s)
      ∧ (∀ r', r' ≠ r →
         score <$> deref (comments up.2) r' = score <$> deref (comments d) r'
         ∧ score <$> deref (comments down.2) r' = score <$> deref (comments d) r').
Proof.
  intros Hi.
  destruct (findComment i (comments d)) as [r|] eqn:Hf;
    [|by apply findComment_None in Hf].
  destruct (findComment_deref _ _ _ Hf) as (c & Hc & <-).
  exists r, c. split; [done|]. split; [done|]. split; [done|].
  intros up down.
  destruct (handleVote_found d r c "upvote" Hf Hc) as (Hu1 & Hu2 & Hu3).
  destruct (handleVote_found d r c "downvote" Hf Hc) as (Hd1 & Hd2 & Hd3).
  fold up in Hu1, Hu2, Hu3. fold down in Hd1, Hd2, Hd3.
  rewrite Hu1, Hd1, Hu2, Hd2. cbn -[voted toDouble Z.max].
  split; [|split; [|split]].
  - intros Hs. by rewrite (voted_up_safe c Hs), (voted_down_safe c Hs).
  - intros Hs. rewrite voted_down, Hs. done.
  - intros Hs s [[= <-]|[= <-]].
    + apply toDouble_nonneg. lia.
    + apply Z.le_max_l.
  - intros r' Hr'. split; [by apply Hu3 | by apply Hd3].
Qed.

(** C5.  Removal with an id that is nowhere in the tree, at any depth:
    [handleDeleteConfirm] leaves at the not-found return, [removeComment]
    does nothing either, and the tree with every comment, reply, content,
    score and order, and so its size, is what it was. *)
Theorem remove_absent_id (d : Data) (i : Z) :
  i ∉ all_ids (comments d) →
  handleDeleteConfirm (Some i) d = (NotFound, d)
  ∧ removeComment i (comments d) = comments d
  ∧ tree_size (comments (handleDeleteConfirm (Some i) d).2) = tree_size (comments d).
Proof.
  intros Hn. assert (Hn2 : i ∉ ids2 (comments d)).
  { intros H. by apply Hn, ids2_all_ids. }
  destruct (handlers_absent d i Hn2) as (_ & _ & _ & _ & Hdel & Hrem).
  by rewrite Hdel.
Qed.

(** C6.  [removeComment] with an id that is on one of the two levels of a
    two-level tree removes one node.  The top-level array is looked at
    first: the first top-level comment with the id goes, its whole
    [replies] array with it, and the size of the tree drops by 1 plus the
    number of its replies.  Otherwise the first reply with the id, in the
    first top-level comment that has one, goes, and the size drops by
    exactly 1. *)
Theorem remove_present_id (cs : list Comment) (i : Z) :
  two_level cs = true →
  i ∈ ids2 cs →
  (∃ l1 c l2,
     cs = l1 ++ c :: l2 ∧ id c = i ∧ (i ∉ (id <$> l1))
     ∧ removeComment i cs = l1 ++ l2
     ∧ tree_size cs = (tree_size (removeComment i cs) + 1 + reply_count c)%nat)
  ∨ ((i ∉ (id <$> cs))
     ∧ ∃ l1 c l2 rs1 r rs2,
         cs = l1 ++ c :: l2 ∧ replies c = Some (rs1 ++ r :: rs2) ∧ id r = i
         ∧ (i ∉ ids2 l1) ∧ (i ∉ (id <$> rs1))
         ∧ removeComment i cs = l1 ++ set_replies c (Some (rs1 ++ rs2)) :: l2
         ∧ tree_size cs = (tree_size (removeComment i cs) + 1)%nat).
Proof.
  intros H2 Hin. destruct (decide (i ∈ id <$> cs)) as [Htop|Htop].
  - left. destruct (removeComment_top i cs Htop) as (l1 & c & l2 & Hcs & Hc & Hl1 & Hrem & Hsz).
    exists l1, c, l2. repeat split; try done.
    rewrite Hsz, node_size_unfold. unfold reply_count.
    rewrite Hcs, two_level_app, two_level_cons in H2.
    apply andb_true_iff in H2 as [_ [Hc2 _]%andb_true_iff].
    rewrite (leaves_tree_size _ Hc2). lia.
  - right. split; [done|].
    destruct (removeComment_reply i cs Htop Hin)
      as (l1 & c & l2 & rs1 & r & rs2 & Hcs & Hc & Hr & Hl1 & Hrs1 & Hrem & Hsz).
    exists l1, c, l2, rs1, r, rs2. repeat split; try done.
    rewrite Hsz. rewrite Hcs, two_level_app, two_level_cons, Hc in H2.
    apply andb_true_iff in H2 as [_ [Hc2 _]%andb_true_iff]. simpl in Hc2.
    rewrite forallb_app in Hc2. apply andb_true_iff in Hc2 as [_ Hr2]. simpl in Hr2.
    apply andb_true_iff in Hr2 as [Hr2 _]. rewrite (leaf_node_size r Hr2). lia.
Qed.

(** Pruning: the tree cut below its second level. *)
Lemma findIndex_fmap (f : Comment → Comment) (i : Z) (l : list Comment) :
  (∀ c, id (f c) = id c) → findIndex i (f <$> l) = findIndex i l.
Proof.
  intros Hf. induction l as [|c l IH]; [done|].
  rewrite fmap_cons. simpl. by rewrite Hf, IH.
Qed.

Lemma findComment_prune (i : Z) (cs : list Comment) :
  findComment i (prune <$> cs) = findComment i cs.
Proof.
  induction cs as [|c cs IH]; [done|].
  rewrite fmap_cons. simpl. rewrite IH.
  destruct (replies c) as [rs|]; simpl; [|done].
  by rewrite findIndex_fmap.
Qed.

(** C10.  The lookup and the operations built on it look at the top-level
    comments and their immediate replies only: the lookup gives the same
    answer on the tree cut below its second level, and for a tree with
    distinct ids and a comment nested below the second level, the lookup of
    that comment's id finds nothing and a vote, an edit and a removal with
    that id leave the tree as it is. *)
Theorem deep_comment_out_of_reach (d : Data) (i : Z) :
  NoDup (all_ids (comments d)) →
  i ∈ deep_ids (comments d) →
  (∀ j, findComment j (prune <$> comments d) = findComment j (comments d))
  ∧ findComment i (comments d) = None
  ∧ (∀ action, handleVote i action d = (None, d))
  ∧ (∀ content, handleUpdateComment i content d = (NotFound, d))
  ∧ handleDeleteConfirm (Some i) d = (NotFound, d)
  ∧ removeComment i (comments d) = comments d.
Proof.
  intros Hnd Hdeep. split; [intros j; apply findComment_prune|].
  destruct (handlers_absent d i (deep_not_shallow _ _ Hnd Hdeep))
    as (Hf & Hv & Hu & _ & Hdel & Hrem).
  done.
Qed.

(** ** Replies *)

(** A parent id the lookup does not find: no reply is built and the tree
    stays as it is. *)
Lemma handleCreateReply_unknown_parent (e : Env) (parentId : Z)
    (replyingTo content : string) (d : Data) :
  parentId ∉ ids2 (comments d) →
  handleCreateReply e parentId replyingTo content d = (NotFound, d).
Proof. intros H. by apply (handlers_absent d parentId H). Qed.

(** A parent id that resolves to the [k]-th top-level comment: the new
    reply becomes the last element of that comment's [replies], after the
    ones that were there, and no other top-level comment changes. *)
Lemma handleCreateReply_top_level (e : Env) (parentId : Z)
    (replyingTo content : string) (d : Data) (k : nat) (p : Comment) :
  findComment parentId (comments d) = Some (InTop k) →
  comments d !! k = Some p →
  let newReply :=
    mkComment (generateId (dateNow e) (mathRandom e)) content (isoNow e) 0
              (Some replyingTo) (authorOf d) None in
  let out := handleCreateReply e parentId replyingTo content d in
  out.1 = Success
  ∧ comments out.2 !! k
    = Some (set_replies p (Some (default [] (replies p) ++ [newReply])))
  ∧ (∀ k', k' ≠ k → comments out.2 !! k' = comments d !! k')
  ∧ length (comments out.2) = length (comments d)
  ∧ currentUser out.2 = currentUser d.
Proof.
  intros Hf Hp newReply out. unfold out, handleCreateReply. rewrite Hf. simpl.
  rewrite list_lookup_alter_eq, Hp. repeat split.
  - intros k' Hk'. by rewrite list_lookup_alter_ne.
  - apply length_alter.
Qed.

(** C1.  On the seeded tree, the reply form opened on reply 3 dispatches
    [createReply] with [parentId] 3; [handleCreateReply] hangs the new reply
    below reply 3.  The tree then has three levels: reply 3 carries a
    [replies] array of its own, and the new reply is in no top-level
    comment's [replies] and out of reach of the lookup. *)
Theorem reply_to_reply_adds_third_level (toISOString : Z → string) :
  let seed := getInitialData toISOString 1700000000000 in
  let d := run seed [AddReply sampleEnv 3 "ramsesmiron" "Thanks, that helps"] in
  two_level (comments seed) = true
  ∧ two_level (comments d) = false
  ∧ (∃ r new,
       deref (comments d) (InReplies 1 0) = Some r ∧ id r = 3
       ∧ replies r = Some [new] ∧ id new = 1700000000500
       ∧ content new = "Thanks, that helps")
  ∧ ids2 (comments d) = [1; 2; 3; 4]
  ∧ deep_ids (comments d) = [1700000000500]
  ∧ findComment 1700000000500 (comments d) = None.
Proof.
  intros seed d.
  split; [vm_compute; reflexivity|]. split; [vm_compute; reflexivity|].
  split.
  - eexists _, _. split; [vm_compute; reflexivity|].
    split; [reflexivity|]. split; [reflexivity|]. split; vm_compute; reflexivity.
  - split; [vm_compute; reflexivity|]. split; vm_compute; reflexivity.
Qed.

(** C3.  On the seeded tree the id 3 resolves to a reply, not to a
    top-level comment, and [handleCreateReply] with [parentId] 3 does not
    leave at the not-found return: it runs to its end and the tree has one
    node more. *)
Theorem handleCreateReply_accepts_reply_parent (toISOString : Z → string) :
  let seed := getInitialData toISOString 1700000000000 in
  let out := handleCreateReply sampleEnv 3 "ramsesmiron" "Thanks, that helps" seed in
  findComment 3 (comments seed) = Some (InReplies 1 0)
  ∧ id <$> comments seed = [1; 2]
  ∧ out.1 = Success
  ∧ out.2 ≠ seed
  ∧ tree_size (comments seed) = 4%nat
  ∧ tree_size (comments out.2) = 5%nat.
Proof.
  intros seed out.
  assert (H4 : tree_size (comments seed) = 4%nat) by (vm_compute; reflexivity).
  assert (H5 : tree_size (comments out.2) = 5%nat) by (vm_compute; reflexivity).
  split; [vm_compute; reflexivity|]. split; [vm_compute; reflexivity|].
  split; [vm_compute; reflexivity|]. split; [|split; assumption].
  intros H. rewrite H in H5. rewrite H4 in H5. discriminate H5.
Qed.

(** C2.  Two comments added 100 ms apart, [Math.random()] giving 0.5 the
    first time and 0.4 the second: [generateId] hands out 1700000000500
    both times, and the tree holds two comments with that id. *)
Theorem generateId_hands_out_same_id_twice (toISOString : Z → string) :
  let seed := getInitialData toISOString 1700000000000 in
  let ops := [ AddTopLevelComment sampleEnv "Hello world";
               AddTopLevelComment sampleEnvLater "Second comment" ] in
  (0 <= mathRandom sampleEnv < 1)%Q
  ∧ (0 <= mathRandom sampleEnvLater < 1)%Q
  ∧ history seed ops = [1700000000500; 1700000000500]
  ∧ id <$> comments (run seed ops) = [1; 2; 1700000000500; 1700000000500]
  ∧ ¬ NoDup (history seed ops)
  ∧ ¬ NoDup (all_ids (comments (run seed ops))).
Proof.
  intros seed ops.
  assert (Hh : history seed ops = [1700000000500; 1700000000500])
    by (vm_compute; reflexivity).
  assert (Ha : all_ids (comments (run seed ops))
               = [1; 2; 3; 4; 1700000000500; 1700000000500])
    by (vm_compute; reflexivity).
  split; [split; [vm_compute; discriminate | vm_compute; reflexivity]|].
  split; [split; [vm_compute; discriminate | vm_compute; reflexivity]|].
  split; [exact Hh|]. split; [vm_compute; reflexivity|]. split.
  - rewrite Hh. intros [Hn _]%NoDup_cons. apply Hn. left.
  - rewrite Ha. intros H. do 4 apply NoDup_cons in H as [_ H].
    apply NoDup_cons in H as [Hn _]. apply Hn. left.
Qed.

(** * Persistence *)

(** C7.  For a store state that passes validation, saving it and reading it
    back at once gives the same tree and the same current user: the value
    read is the value saved, and no other state has that value.  The write
    has to go through, and [JSON.parse] has to read the saved text back. *)
Theorem save_then_get_round_trip
    (JSON_parse : string → option JSON) (JSON_stringify : JSON → string)
    (setItem_ok : gmap string string → string → string → bool)
    (toISOString : Z → string)
    (d : Data) (m : gmap string string) (now : Z) :
  truthy (validateData (Some (toJS d))) = true →
  setItem_ok m STORAGE_KEY (JSON_stringify (toJS d)) = true →
  JSON_stringify (toJS d) ≠ EmptyString →
  JSON_parse (JSON_stringify (toJS d)) = Some (toJS d) →
  let saved := saveData JSON_stringify setItem_ok (toJS d) (Items m) in
  saved.1 = true
  ∧ getData JSON_parse toISOString saved.2 now = toJS d
  ∧ (∀ d', toJS d' = getData JSON_parse toISOString saved.2 now → d' = d).
Proof.
  intros Hv Hok Hne Hp saved. unfold saved.
  rewrite (saveData_written _ _ _ _ Hv Hok). simpl.
  assert (Hg : getData JSON_parse toISOString
                 (Items (<[STORAGE_KEY:=JSON_stringify (toJS d)]> m)) now = toJS d).
  { rewrite (getData_stored JSON_parse toISOString _ _ (toJS d) now
               (lookup_insert_eq _ _ _) Hne Hp).
    by rewrite Hv. }
  split; [done|]. split; [exact Hg|].
  intros d' Hd'. rewrite Hg in Hd'. by apply toJS_inj.
Qed.

(** C8.  A candidate passes [validateData] exactly when it is an object with
    a user object whose username is not empty and with a [comments]
    property that is an array; the elements of the array play no part in
    the verdict; and the same verdict decides what [getData] returns (the
    load path) and whether [importData] accepts a text (the restore path),
    which leaves the storage alone when it rejects. *)
Theorem validateData_rule
    (JSON_parse : string → option JSON) (JSON_stringify : JSON → string)
    (setItem_ok : gmap string string → string → string → bool)
    (toISOString : Z → string) :
  (∀ data, truthy (validateData data) = true ↔ shape_valid data)
  ∧ (∀ fields l l',
       truthy (validateData (Some (JObj (set_field "comments" (JArr l) fields))))
       = truthy (validateData (Some (JObj (set_field "comments" (JArr l') fields)))))
  ∧ (∀ m s data now,
       m !! STORAGE_KEY = Some s → s ≠ EmptyString → JSON_parse s = Some data →
       (shape_valid (Some data) →
        getData JSON_parse toISOString (Items m) now = data)
       ∧ (¬ shape_valid (Some data) →
          getData JSON_parse toISOString (Items m) now
          = getInitialDataJS toISOString now))
  ∧ (∀ text ls,
       ((importData JSON_parse JSON_stringify setItem_ok text ls).1 = true
        ↔ ∃ data, JSON_parse text = Some data ∧ shape_valid (Some data))
       ∧ ((importData JSON_parse JSON_stringify setItem_ok text ls).1 = false →
          (importData JSON_parse JSON_stringify setItem_ok text ls).2 = ls)).
Proof.
  split; [apply validateData_shape|]. split; [apply validateData_elements|]. split.
  - intros m s data now Hm Hs Hp.
    rewrite (getData_stored JSON_parse toISOString m s data now Hm Hs Hp).
    split; intros H.
    + apply validateData_shape in H. by rewrite H.
    + destruct (truthy (validateData (Some data))) eqn:E; [|done].
      by apply validateData_shape in E.
  - intros text ls. split; [apply importData_accepts | apply importData_rejects].
Qed.

(** What [loadData] ends with.  It never throws.  It reads the item at the
    fixed key and keeps the stored snapshot when that parses, passes
    validation and holds at least one comment.  When it turns to the seed
    document and the seed cannot be fetched or processed, it ends with the
    hard-coded default.  What it ends with is the stored snapshot, the
    default or the processed seed document; the first two pass validation,
    the seed document is not validated. *)
Lemma loadData_fallbacks
    (JSON_parse : string → option JSON) (JSON_stringify : JSON → string)
    (setItem_ok : gmap string string → string → string → bool)
    (toISOString : Z → string) (parseInt : string → option Z)
    (convertArray : list JSON → result string)
    (ls : LocalStorage) (seed : option JSON) (now : Z) :
  let load :=
    loadData JSON_parse JSON_stringify setItem_ok toISOString parseInt convertArray
             ls seed now in
  let stored := getData JSON_parse toISOString ls now in
  let initial := getInitialDataJS toISOString now in
  let fromSeed := processed toISOString parseInt convertArray seed now in
  (∃ r, load = Ok r)
  ∧ (∀ m s data fields c l,
       ls = Items m → m !! STORAGE_KEY = Some s → s ≠ EmptyString →
       JSON_parse s = Some data → shape_valid (Some data) →
       data = JObj fields → field "comments" fields = Some (JArr (c :: l)) →
       load = Ok (mkLoaded data (field "currentUser" fields) ls))
  ∧ (∀ r, load = Ok r →
       loaded_data r = stored ∨ loaded_data r = initial ∨ fromSeed (loaded_data r))
  ∧ (∀ r, load = Ok r → (∀ out, ¬ fromSeed out) →
       (loaded_data r = stored ∨ loaded_data r = initial)
       ∧ (noComments stored = Ok true → loaded_data r = initial))
  ∧ truthy (validateData (Some stored)) = true
  ∧ truthy (validateData (Some initial)) = true.
Proof.
  intros load stored initial fromSeed.
  destruct (loadData_result JSON_parse JSON_stringify setItem_ok toISOString
              parseInt convertArray ls seed now) as (empty & Hempty & Hload).
  fold load stored in Hload, Hempty.
  pose proof (loadInitialData_cases toISOString parseInt convertArray seed now) as Hseed.
  split; [apply loadData_total|]. split; [|split; [|split; [|split]]].
  - intros m s data fields c l -> Hm Hs Hp Hv -> Hc.
    apply validateData_shape in Hv.
    assert (Hst : stored = JObj fields).
    { unfold stored. rewrite (getData_stored _ _ _ _ _ now Hm Hs Hp). by rewrite Hv. }
    rewrite Hst in Hempty, Hload.
    rewrite (noComments_array _ _ _ eq_refl Hc) in Hempty.
    injection Hempty as <-. by rewrite Hload.
  - intros r Hr. rewrite Hload in Hr. destruct empty; injection Hr as <-; simpl.
    + destruct Hseed as [H|[_ ->]]; [by right; right | by right; left].
    + by left.
  - intros r Hr Hno. rewrite Hload in Hr.
    destruct Hseed as [H|[_ Hi]]; [by apply Hno in H|].
    destruct empty; injection Hr as <-; simpl.
    + rewrite Hi. split; [by right | done].
    + split; [by left|]. intros H. congruence.
  - apply getData_valid.
  - apply initial_valid.
Qed.

(** C9.  The seed document is not the fallback for a missing item: with
    nothing stored at the fixed key and the seed document at hand,
    [loadData] ends with the hard-coded default and writes nothing, while
    the seed document, which [loadInitialData] would deliver, has other
    comments.  [getData] has already put the default in the place of the
    missing item, so the test that follows the comment
    ['If no stored data, try to load from data.json'] does not see that
    nothing was stored. *)
Lemma loadData_skips_seed_on_empty_storage :
  let load :=
    loadData sampleParse sampleStringify sampleSetItem sampleISO sampleParseInt
             sampleConvertArray (Items ∅) (Some sampleSeed) 1700000000000 in
  let fromSeed :=
    loadInitialData sampleISO sampleParseInt sampleConvertArray (Some sampleSeed)
                    1700000000000 in
  getItem (Items ∅) STORAGE_KEY = Ok None
  ∧ loaded_data <$> load = Ok (getInitialDataJS sampleISO 1700000000000)
  ∧ loaded_storage <$> load = Ok (Items ∅)
  ∧ processed sampleISO sampleParseInt sampleConvertArray (Some sampleSeed)
      1700000000000 fromSeed
  ∧ prop (Some fromSeed) "comments"
    ≠ prop (Some (getInitialDataJS sampleISO 1700000000000)) "comments".
Proof.
  intros load fromSeed.
  split; [reflexivity|]. split; [vm_compute; reflexivity|].
  split; [vm_compute; reflexivity|]. split.
  - eexists _, _, _. split; [reflexivity|]. split; [vm_compute; reflexivity|].
    split; vm_compute; reflexivity.
  - vm_compute. discriminate.
Qed.

(** * The theorems at sample inputs *)

Lemma sampleTree_ids : all_ids (comments sampleTree) = [1; 2; 3; 4].
Proof. vm_compute. reflexivity. Qed.

Lemma sampleTree_ids2 : ids2 (comments sampleTree) = [1; 2; 3; 4].
Proof. vm_compute. reflexivity. Qed.

Lemma NoDup_1234 : NoDup [1; 2; 3; 4].
Proof. apply (bool_decide_unpack _). vm_compute. exact I. Qed.

Lemma vote_changes_score_witness :
  3 ∈ ids2 (comments sampleTree)
  ∧ (handleVote 3 "upvote" sampleTree).1 = Some 5
  ∧ (handleVote 3 "downvote" sampleTree).1 = Some 3.
Proof.
  assert (H1 : 3 ∈ ids2 (comments sampleTree)).
  { rewrite sampleTree_ids2. apply (bool_decide_unpack _). vm_compute. exact I. }
  split; [exact H1|].
  destruct (vote_changes_score sampleTree 3 H1) as (r & c & Hf & Hc & _ & Hv & _).
  assert (Hr : r = InReplies 1 0) by (vm_compute in Hf; congruence).
  subst r.
  assert (Hs : c = sampleReply) by (vm_compute in Hc; vm_compute; congruence).
  subst c.
  destruct (Hv eq_refl) as ((Hu & _) & (Hd & _)).
  split; [exact Hu | exact Hd].
Defined.

(** C4, the claim as it is written fails where a double has no room for
    the next integer: a comment stored with the score [2 ^ 53] is present
    in the tree, and ['upvote'] leaves its score at [2 ^ 53]. *)
Lemma upvote_at_two_to_53_adds_nothing :
  1 ∈ ids2 (comments sampleBigScore)
  ∧ score <$> deref (comments sampleBigScore) (InTop 0) = Some (2 ^ 53)
  ∧ (handleVote 1 "upvote" sampleBigScore).1 = Some (2 ^ 53)
  ∧ score <$> deref (comments (handleVote 1 "upvote" sampleBigScore).2) (InTop 0)
    ≠ Some (2 ^ 53 + 1).
Proof.
  split; [apply (bool_decide_unpack _); vm_compute; exact I|].
  split; [vm_compute; reflexivity|].
  split; [vm_compute; reflexivity|].
  vm_compute. discriminate.
Qed.

Lemma remove_absent_id_witness :
  (99 ∉ all_ids (comments sampleTree))
  ∧ handleDeleteConfirm (Some 99) sampleTree = (NotFound, sampleTree).
Proof.
  assert (H : 99 ∉ all_ids (comments sampleTree)).
  { rewrite sampleTree_ids. apply (bool_decide_unpack _). vm_compute. exact I. }
  split; [exact H|]. exact (proj1 (remove_absent_id sampleTree 99 H)).
Defined.

Lemma remove_present_id_witness :
  two_level (comments sampleTree) = true
  ∧ 3 ∈ ids2 (comments sampleTree)
  ∧ ((∃ l1 c l2,
        comments sampleTree = l1 ++ c :: l2 ∧ id c = 3 ∧ (3 ∉ (id <$> l1))
        ∧ removeComment 3 (comments sampleTree) = l1 ++ l2
        ∧ tree_size (comments sampleTree)
          = (tree_size (removeComment 3 (comments sampleTree)) + 1 + reply_count c)%nat)
     ∨ ((3 ∉ (id <$> comments sampleTree))
        ∧ ∃ l1 c l2 rs1 r rs2,
            comments sampleTree = l1 ++ c :: l2
            ∧ replies c = Some (rs1 ++ r :: rs2) ∧ id r = 3
            ∧ (3 ∉ ids2 l1) ∧ (3 ∉ (id <$> rs1))
            ∧ removeComment 3 (comments sampleTree)
              = l1 ++ set_replies c (Some (rs1 ++ rs2)) :: l2
            ∧ tree_size (comments sampleTree)
              = (tree_size (removeComment 3 (comments sampleTree)) + 1)%nat)).
Proof.
  assert (H1 : two_level (comments sampleTree) = true) by (vm_compute; reflexivity).
  assert (H2 : 3 ∈ ids2 (comments sampleTree)).
  { rewrite sampleTree_ids2. apply (bool_decide_unpack _). vm_compute. exact I. }
  split; [exact H1|]. split; [exact H2|].
  exact (remove_present_id (comments sampleTree) 3 H1 H2).
Defined.

Lemma deep_comment_out_of_reach_witness :
  NoDup (all_ids (comments sampleDeepTree))
  ∧ 1700000000500 ∈ deep_ids (comments sampleDeepTree)
  ∧ findComment 1700000000500 (comments sampleDeepTree) = None
  ∧ handleDeleteConfirm (Some 1700000000500) sampleDeepTree
    = (NotFound, sampleDeepTree).
Proof.
  assert (H1 : NoDup (all_ids (comments sampleDeepTree))).
  { replace (all_ids (comments sampleDeepTree)) with [1; 2; 3; 1700000000500; 4]
      by (vm_compute; reflexivity).
    apply (bool_decide_unpack _). vm_compute. exact I. }
  assert (H2 : 1700000000500 ∈ deep_ids (comments sampleDeepTree)).
  { replace (deep_ids (comments sampleDeepTree)) with [1700000000500]
      by (vm_compute; reflexivity).
    left. }
  split; [exact H1|]. split; [exact H2|].
  destruct (deep_comment_out_of_reach sampleDeepTree 1700000000500 H1 H2)
    as (_ & Hf & _ & _ & Hd & _).
  split; [exact Hf | exact Hd].
Defined.

Lemma save_then_get_round_trip_witness :
  truthy (validateData (Some (toJS sampleTree))) = true
  ∧ sampleSetItem ∅ STORAGE_KEY (sampleStringify (toJS sampleTree)) = true
  ∧ sampleStringify (toJS sampleTree) ≠ EmptyString
  ∧ sampleParse (sampleStringify (toJS sampleTree)) = Some (toJS sampleTree)
  ∧ getData sampleParse sampleISO
      (saveData sampleStringify sampleSetItem (toJS sampleTree) (Items ∅)).2
      1700000000000
    = toJS sampleTree.
Proof.
  assert (H1 : truthy (validateData (Some (toJS sampleTree))) = true)
    by (vm_compute; reflexivity).
  assert (H2 : sampleSetItem ∅ STORAGE_KEY (sampleStringify (toJS sampleTree)) = true)
    by reflexivity.
  assert (H3 : sampleStringify (toJS sampleTree) ≠ EmptyString)
    by (vm_compute; discriminate).
  assert (H4 : sampleParse (sampleStringify (toJS sampleTree)) = Some (toJS sampleTree))
    by reflexivity.
  split; [exact H1|]. split; [exact H2|]. split; [exact H3|]. split; [exact H4|].
  exact (proj1 (proj2 (save_then_get_round_trip sampleParse sampleStringify
                         sampleSetItem sampleISO sampleTree ∅ 1700000000000
                         H1 H2 H3 H4))).
Defined.

(** * More about the store *)

(** ** Writes that keep ids and [replies] *)

Lemma fmap_alter_same {A} (g : Comment → A) (f : Comment → Comment) (j : nat)
    (l : list Comment) :
  (∀ x, g (f x) = g x) → g <$> alter f j l = g <$> l.
Proof.
  intros Hf. revert j. induction l as [|x l IH]; intros [|j]; try done.
  - change (g (f x) :: (g <$> l) = g x :: (g <$> l)). by rewrite Hf.
  - change (g x :: (g <$> alter f j l) = g x :: (g <$> l)). by rewrite IH.
Qed.

Lemma ids_shallow_alter (f : Comment → Comment) (c : Comment) (j : nat) :
  (∀ x, id (f x) = id x) →
  ids_shallow (set_replies c (alter f j <$> replies c)) = ids_shallow c.
Proof.
  intros Hf. unfold ids_shallow. simpl. f_equal.
  destruct (replies c) as [rs|]; [|done]. by apply fmap_alter_same.
Qed.

Lemma alter_head {A} (f : A → A) (x : A) (l : list A) :
  alter f 0%nat (x :: l) = f x :: l.
Proof. reflexivity. Qed.

Lemma alter_tail {A} (f : A → A) (i : nat) (x : A) (l : list A) :
  alter f (S i) (x :: l) = x :: alter f i l.
Proof. reflexivity. Qed.

Lemma ids2_alter (g : Comment → Comment) (i : nat) (cs : list Comment) :
  (∀ x, ids_shallow (g x) = ids_shallow x) → ids2 (alter g i cs) = ids2 cs.
Proof.
  intros Hg. revert i. induction cs as [|c cs IH]; intros [|i]; try done.
  - by rewrite alter_head, !ids2_cons, Hg.
  - by rewrite alter_tail, !ids2_cons, IH.
Qed.

Lemma assign_ids2 (f : Comment → Comment) (r : Ref) (cs : list Comment) :
  (∀ x, id (f x) = id x) → (∀ x, replies (f x) = replies x) →
  ids2 (assign f r cs) = ids2 cs.
Proof.
  intros Hid Hrep. destruct r as [i|i j]; simpl; apply ids2_alter; intros x.
  - unfold ids_shallow. by rewrite Hid, Hrep.
  - by apply ids_shallow_alter.
Qed.

Lemma tree_size_alter (f : Comment → Comment) (i : nat) (cs : list Comment) :
  (∀ x, node_size (f x) = node_size x) →
  tree_size (alter f i cs) = tree_size cs.
Proof.
  intros Hf. revert i. induction cs as [|c cs IH]; intros [|i]; try done.
  - by rewrite alter_head, !tree_size_cons, Hf.
  - by rewrite alter_tail, !tree_size_cons, IH.
Qed.

Lemma assign_tree_size (f : Comment → Comment) (r : Ref) (cs : list Comment) :
  (∀ x, replies (f x) = replies x) →
  tree_size (assign f r cs) = tree_size cs.
Proof.
  intros Hrep.
  assert (Hn : ∀ x, node_size (f x) = node_size x).
  { intros x. by rewrite !node_size_unfold, Hrep. }
  destruct r as [i|i j]; simpl; apply tree_size_alter; [done|].
  intros x. rewrite !node_size_unfold. simpl.
  destruct (replies x) as [rs|]; [|done]. simpl. f_equal.
  by apply tree_size_alter.
Qed.

Lemma findIndex_alter (f : Comment → Comment) (i : Z) (j : nat) (l : list Comment) :
  (∀ x, id (f x) = id x) → findIndex i (alter f j l) = findIndex i l.
Proof.
  intros Hf. revert j. induction l as [|c l IH]; intros [|j]; try done.
  - rewrite alter_head. simpl. by rewrite Hf.
  - rewrite alter_tail. simpl. by rewrite IH.
Qed.

Lemma findComment_alter (g : Comment → Comment) (k : nat) (cs : list Comment) (i : Z) :
  (∀ x, id (g x) = id x) →
  (∀ x, replies (g x) ≫= findIndex i = replies x ≫= findIndex i) →
  findComment i (alter g k cs) = findComment i cs.
Proof.
  intros Hid Hrep. revert k. induction cs as [|c cs IH]; intros [|k]; try done.
  - rewrite alter_head. simpl. by rewrite Hid, Hrep.
  - rewrite alter_tail. simpl. by rewrite IH.
Qed.

Lemma assign_findComment (f : Comment → Comment) (r : Ref) (cs : list Comment) (i : Z) :
  (∀ x, id (f x) = id x) → (∀ x, replies (f x) = replies x) →
  findComment i (assign f r cs) = findComment i cs.
Proof.
  intros Hid Hrep. destruct r as [k|k j]; simpl; apply findComment_alter; try done.
  - intros x. by rewrite Hrep.
  - intros x. simpl. destruct (replies x) as [rs|]; [|done]. simpl.
    by apply findIndex_alter.
Qed.

Lemma own_set_replies (c : Comment) (rs : option (list Comment)) :
  own (set_replies c rs) = own c.
Proof. reflexivity. Qed.

(** ** Editing *)

(** [handleUpdateComment] on an id the lookup finds replaces the content of
    the comment found and nothing else: that comment keeps its id, time,
    score, addressee, author and replies, every other comment keeps all it
    holds, and ids, lookups, the size of the tree and the current user are
    as before. *)
Theorem handleUpdateComment_changes_only_content
    (d : Data) (i : Z) (content : string) (r : Ref) :
  findComment i (comments d) = Some r →
  let out := handleUpdateComment i content d in
  out.1 = Success
  ∧ (∃ c, deref (comments d) r = Some c ∧ id c = i
          ∧ deref (comments out.2) r = Some (set_content c content))
  ∧ (∀ r', r' ≠ r → own <$> deref (comments out.2) r' = own <$> deref (comments d) r')
  ∧ ids2 (comments out.2) = ids2 (comments d)
  ∧ (∀ j, findComment j (comments out.2) = findComment j (comments d))
  ∧ tree_size (comments out.2) = tree_size (comments d)
  ∧ currentUser out.2 = currentUser d.
Proof.
  intros Hf out. unfold out, handleUpdateComment. rewrite Hf. simpl.
  destruct (findComment_deref _ _ _ Hf) as (c & Hc & Hi).
  split; [done|]. split.
  { exists c. split; [done|]. split; [done|].
    exact (deref_assign_same (λ x, set_content x content) _ _ _ Hc). }
  split.
  { intros r' Hr'. by apply deref_assign_other. }
  split; [by apply assign_ids2|]. split; [|split; [by apply assign_tree_size | done]].
  intros j. by apply assign_findComment.
Qed.

Lemma handleUpdateComment_changes_only_content_witness :
  findComment 3 (comments sampleTree) = Some (InReplies 1 0)
  ∧ (handleUpdateComment 3 "Edited text" sampleTree).1 = Success
  ∧ tree_size (comments (handleUpdateComment 3 "Edited text" sampleTree).2)
    = tree_size (comments sampleTree).
Proof.
  assert (H : findComment 3 (comments sampleTree) = Some (InReplies 1 0))
    by (vm_compute; reflexivity).
  split; [exact H|].
  destruct (handleUpdateComment_changes_only_content sampleTree 3 "Edited text" _ H)
    as (H1 & _ & _ & _ & _ & H2 & _).
  split; [exact H1 | exact H2].
Defined.

(** ** Votes *)

Lemma alter_fixed {A} (f : A → A) (i : nat) (l : list A) :
  (∀ x, l !! i = Some x → f x = x) → alter f i l = l.
Proof.
  intros H. rewrite (list_alter_ext f (λ x, x) l l i); [|done..].
  by apply list_alter_id.
Qed.

Lemma assign_assign (f g : Comment → Comment) (r : Ref) (cs : list Comment) :
  assign g r (assign f r cs) = assign (g ∘ f) r cs.
Proof.
  destruct r as [i|i j]; simpl; rewrite list_alter_alter_eq; [done|].
  apply list_alter_ext; [|done]. intros x _. simpl. f_equal.
  destruct (replies x) as [rs|]; [|done]. simpl. f_equal.
  apply list_alter_alter_eq.
Qed.

Lemma assign_fixed (f : Comment → Comment) (r : Ref) (cs : list Comment) (c : Comment) :
  deref cs r = Some c → f c = c → assign f r cs = cs.
Proof.
  destruct r as [i|i j]; simpl.
  - intros Hc Hf. apply alter_fixed. intros x Hx. congruence.
  - intros Hc Hf. apply alter_fixed. intros x Hx. rewrite Hx in Hc.
    destruct x as [xi xc xa xs xr xu [rs|]]; simpl in *; [|done].
    unfold set_replies. simpl. do 2 f_equal.
    apply alter_fixed. intros y Hy. congruence.
Qed.

Lemma voted_id (action : string) (c : Comment) : id (voted action c) = id c.
Proof. unfold voted. by repeat case_match. Qed.

Lemma voted_down_up (c : Comment) :
  0 ≤ score c < 2 ^ 53 → voted "downvote" (voted "upvote" c) = c.
Proof.
  intros H. destruct c as [i ct ca s rt u rs]. unfold voted, set_score.
  cbn -[toDouble Z.max Z.pow] in *.
  rewrite (toDouble_exact (s + 1)) by lia.
  rewrite (toDouble_exact (s + 1 - 1)) by lia.
  f_equal. lia.
Qed.

(** A vote changes nothing but one score: what the voted comment holds
    besides its score is as before, every other comment keeps all it
    holds, and ids, lookups, the size of the tree and the current user are
    as before.  An action that is neither ['upvote'] nor ['downvote']
    changes nothing at all. *)
Theorem handleVote_changes_only_score (d : Data) (i : Z) (action : string) (r : Ref) :
  findComment i (comments d) = Some r →
  let out := handleVote i action d in
  (∃ c, deref (comments d) r = Some c
        ∧ deref (comments out.2) r = Some (voted action c)
        ∧ set_score (voted action c) (score c) = c)
  ∧ (∀ r', r' ≠ r → own <$> deref (comments out.2) r' = own <$> deref (comments d) r')
  ∧ ids2 (comments out.2) = ids2 (comments d)
  ∧ (∀ j, findComment j (comments out.2) = findComment j (comments d))
  ∧ tree_size (comments out.2) = tree_size (comments d)
  ∧ currentUser out.2 = currentUser d
  ∧ (action ≠ "upvote" → action ≠ "downvote" → out.2 = d).
Proof.
  intros Hf out. unfold out, handleVote. rewrite Hf. simpl.
  destruct (findComment_deref _ _ _ Hf) as (c & Hc & Hi).
  split.
  { exists c. split; [done|]. split; [by apply deref_assign_same|].
    destruct c. unfold voted, set_score. by repeat case_match. }
  split.
  { intros r' Hr'.
    apply deref_assign_other; [apply own_set_replies | apply voted_replies | done]. }
  split; [apply assign_ids2; [apply voted_id | apply voted_replies]|].
  split; [intros j; apply assign_findComment; [apply voted_id | apply voted_replies]|].
  split; [apply assign_tree_size, voted_replies|]. split; [done|].
  intros Hu Hd. rewrite (assign_fixed _ _ _ c Hc).
  - by destruct d.
  - unfold voted. destruct (String.eqb_spec action "upvote"); [done|].
    by destruct (String.eqb_spec action "downvote").
Qed.

Lemma handleVote_changes_only_score_witness :
  findComment 3 (comments sampleTree) = Some (InReplies 1 0)
  ∧ ids2 (comments (handleVote 3 "upvote" sampleTree).2) = ids2 (comments sampleTree).
Proof.
  assert (H : findComment 3 (comments sampleTree) = Some (InReplies 1 0))
    by (vm_compute; reflexivity).
  split; [exact H|].
  exact (proj1 (proj2 (proj2 (handleVote_changes_only_score sampleTree 3 "upvote" _ H)))).
Defined.

(** An upvote followed by a downvote on a comment whose score is not
    negative and below [2 ^ 53] gives back the tree as it was.  The other
    order does not: at score 0 the downvote does nothing and the upvote
    then leaves 1.  Nor does the first order at [2 ^ 53], where the sum of
    doubles leaves the score as it is and the downvote then takes 1. *)
Theorem vote_up_then_down_restores (d : Data) (i : Z) (r : Ref) (c : Comment) :
  findComment i (comments d) = Some r →
  deref (comments d) r = Some c →
  0 ≤ score c →
  let up_down := (handleVote i "downvote" (handleVote i "upvote" d).2).2 in
  let down_up := (handleVote i "upvote" (handleVote i "downvote" d).2).2 in
  (score c < 2 ^ 53 → up_down = d)
  ∧ (score c = 0 → score <$> deref (comments down_up) r = Some 1)
  ∧ (score c = 2 ^ 53 →
     score <$> deref (comments up_down) r = Some (2 ^ 53 - 1)).
Proof.
  intros Hf Hc Hs.
  assert (Hstep : ∀ a b,
    (handleVote i b (handleVote i a d).2).2
    = set_comments d (assign (voted b ∘ voted a) r (comments d))).
  { intros a b. unfold handleVote at 2. rewrite Hf. simpl.
    unfold handleVote. simpl.
    rewrite (assign_findComment _ _ _ _ (voted_id a) (voted_replies a)), Hf. simpl.
    by rewrite assign_assign. }
  cbv zeta. rewrite !Hstep. split; [|split].
  - intros Hlt. rewrite (assign_fixed _ _ _ c Hc); [by destruct d|].
    by apply voted_down_up.
  - intros H0. cbn [comments set_comments].
    rewrite (deref_assign_same _ _ _ _ Hc).
    change (Some (score (voted "upvote" (voted "downvote" c))) = Some 1).
    rewrite voted_up, voted_down, H0. vm_compute. reflexivity.
  - intros H53. cbn [comments set_comments].
    rewrite (deref_assign_same _ _ _ _ Hc).
    change (Some (score (voted "downvote" (voted "upvote" c))) = Some (2 ^ 53 - 1)).
    rewrite voted_down, voted_up, H53. vm_compute. reflexivity.
Qed.

Lemma vote_up_then_down_restores_witness :
  findComment 3 (comments sampleTree) = Some (InReplies 1 0)
  ∧ deref (comments sampleTree) (InReplies 1 0) = Some sampleReply
  ∧ 0 ≤ score sampleReply < 2 ^ 53
  ∧ (handleVote 3 "downvote" (handleVote 3 "upvote" sampleTree).2).2 = sampleTree.
Proof.
  assert (H1 : findComment 3 (comments sampleTree) = Some (InReplies 1 0))
    by (vm_compute; reflexivity).
  assert (H2 : deref (comments sampleTree) (InReplies 1 0) = Some sampleReply)
    by (vm_compute; reflexivity).
  assert (H3 : 0 ≤ score sampleReply) by (vm_compute; discriminate).
  assert (H4 : score sampleReply < 2 ^ 53) by (vm_compute; reflexivity).
  split; [exact H1|]. split; [exact H2|]. split; [exact (conj H3 H4)|].
  exact (proj1 (vote_up_then_down_restores sampleTree 3 _ _ H1 H2 H3) H4).
Defined.

(** ** What every operation keeps *)

Lemma Forall_assign (P : Comment → Prop) (f : Comment → Comment) (r : Ref)
    (cs : list Comment) :
  Forall P cs →
  (∀ x, P x → P (f x)) →
  (∀ x j, P x → P (set_replies x (alter f j <$> replies x))) →
  Forall P (assign f r cs).
Proof.
  intros Hcs Htop Hrep. destruct r as [i|i j]; simpl; apply Forall_alter; auto.
Qed.

Lemma Forall_removeReply (P : Comment → Prop) (i : Z) (cs : list Comment) :
  Forall P cs →
  (∀ x rs j, P x → replies x = Some rs → P (set_replies x (Some (delete j rs)))) →
  Forall P (removeReply i cs).
Proof.
  intros Hcs Hdel. induction Hcs as [|c cs Hc Hcs IH]; simpl; [done|].
  destruct (replies c) as [rs|] eqn:Er.
  - destruct (findIndex i rs) as [j|].
    + constructor; [by apply Hdel | done].
    + by constructor.
  - by constructor.
Qed.

Lemma Forall_removeComment (P : Comment → Prop) (i : Z) (cs : list Comment) :
  Forall P cs →
  (∀ x rs j, P x → replies x = Some rs → P (set_replies x (Some (delete j rs)))) →
  Forall P (removeComment i cs).
Proof.
  intros Hcs Hdel. unfold removeComment. destruct (findIndex i cs).
  - by apply Forall_delete.
  - by apply Forall_removeReply.
Qed.

(** *** Scores *)

Lemma scores2_scored (cs : list Comment) :
  Forall (λ s, 0 ≤ s) (scores2 cs) ↔ Forall scored cs.
Proof. unfold scores2. by rewrite Forall_bind. Qed.

Lemma scored_write (f : Comment → Comment) :
  (∀ x, 0 ≤ score x → 0 ≤ score (f x)) →
  (∀ x, replies (f x) = replies x) →
  (∀ x, scored x → scored (f x))
  ∧ (∀ x j, scored x → scored (set_replies x (alter f j <$> replies x))).
Proof.
  intros Hs Hr. unfold scored, scores_shallow. split.
  - intros x [H1 H2]%Forall_cons. rewrite Hr. constructor; auto.
  - intros x j [H1 H2]%Forall_cons. simpl. constructor; [done|].
    destruct (replies x) as [rs|]; [|done]. simpl in *.
    apply Forall_fmap. apply Forall_alter; [by apply Forall_fmap|].
    intros y _. simpl. apply Hs.
Qed.

Lemma voted_score_nonneg (a : string) (x : Comment) :
  0 ≤ score x → 0 ≤ score (voted a x).
Proof.
  intros H. unfold voted. repeat case_match; cbn -[toDouble Z.max]; [|lia..].
  apply toDouble_nonneg. lia.
Qed.

Lemma scored_push (new : Comment) :
  score new = 0 →
  (∀ x, scored x → scored (pushReply new x))
  ∧ (∀ x j, scored x → scored (set_replies x (alter (pushReply new) j <$> replies x))).
Proof.
  intros Hn. unfold scored, scores_shallow. split.
  - intros x [H1 H2]%Forall_cons. simpl. constructor; [done|].
    rewrite fmap_app. apply Forall_app. split; [done|].
    apply Forall_fmap. constructor; [simpl; lia | constructor].
  - intros x j [H1 H2]%Forall_cons. simpl. constructor; [done|].
    destruct (replies x) as [rs|]; [|done]. simpl in *.
    apply Forall_fmap. apply Forall_alter; [by apply Forall_fmap|].
    by intros y _.
Qed.

Lemma scored_delete (x : Comment) (rs : list Comment) (j : nat) :
  scored x → replies x = Some rs → scored (set_replies x (Some (delete j rs))).
Proof.
  unfold scored, scores_shallow. intros [H1 H2]%Forall_cons Hr. rewrite Hr in H2.
  simpl in *. constructor; [done|]. apply Forall_fmap, Forall_delete.
  by apply Forall_fmap.
Qed.

Lemma step_scored (d : Data) (o : Op) :
  Forall scored (comments d) → Forall scored (comments (step d o)).
Proof.
  intros Hd. destruct o as [e text|e p rt ct|i ct|i a|i]; simpl.
  - unfold handleAddComment. destruct (negb _); [done|]. simpl.
    apply Forall_app. split; [done|]. by repeat constructor.
  - unfold handleCreateReply. destruct (findComment p (comments d)); [|done].
    simpl. apply Forall_assign; [done|..]; by apply scored_push.
  - unfold handleUpdateComment. destruct (findComment i (comments d)); [|done].
    simpl. apply Forall_assign; [done|..];
      by apply (scored_write (λ c, set_content c ct)).
  - unfold handleVote. destruct (findComment i (comments d)); [|done].
    simpl. apply Forall_assign; [done|..];
      apply scored_write; auto using voted_score_nonneg, voted_replies.
  - unfold handleDeleteConfirm, noTarget. destruct (i =? 0)%Z; [done|].
    destruct (findComment i (comments d)); [|done]. simpl.
    apply Forall_removeComment; [done|]. apply scored_delete.
Qed.

(** No sequence of operations makes a score on the two levels negative:
    when every score the tree shows is at least 0, so is every score after
    any run of additions, replies, edits, votes and removals. *)
Theorem scores_stay_non_negative (d : Data) (ops : list Op) :
  Forall (λ s, 0 ≤ s) (scores2 (comments d)) →
  Forall (λ s, 0 ≤ s) (scores2 (comments (run d ops))).
Proof.
  rewrite !scores2_scored. revert d.
  induction ops as [|o ops IH]; intros d Hd; [done|].
  apply IH. by apply step_scored.
Qed.

Lemma scores_stay_non_negative_witness :
  Forall (λ s, 0 ≤ s) (scores2 (comments sampleTree))
  ∧ Forall (λ s, 0 ≤ s)
      (scores2 (comments (run sampleTree [Vote 3 "downvote"; Remove 1]))).
Proof.
  assert (H : Forall (λ s, 0 ≤ s) (scores2 (comments sampleTree))).
  { change (scores2 (comments sampleTree)) with [12; 5; 4; 2].
    repeat constructor; discriminate. }
  split; [exact H|]. exact (scores_stay_non_negative sampleTree _ H).
Defined.

(** *** Two levels *)

Lemma two_level_flat (cs : list Comment) : two_level cs = true ↔ Forall flat cs.
Proof.
  induction cs as [|c cs IH]; [by split|].
  rewrite two_level_cons, andb_true_iff, Forall_cons, IH. done.
Qed.

Lemma forallb_leaf_Forall (rs : list Comment) :
  forallb leaf rs = true ↔ Forall (λ r, leaf r = true) rs.
Proof.
  induction rs as [|r rs IH]; [by split|].
  simpl. rewrite andb_true_iff, Forall_cons, IH. done.
Qed.

Lemma flat_write (f : Comment → Comment) :
  (∀ x, replies (f x) = replies x) →
  (∀ x, flat x → flat (f x))
  ∧ (∀ x j, flat x → flat (set_replies x (alter f j <$> replies x))).
Proof.
  intros Hr. unfold flat. split.
  - intros x. by rewrite Hr.
  - intros x j. simpl. destruct (replies x) as [rs|]; [|done]. simpl.
    rewrite !forallb_leaf_Forall. intros H. apply Forall_alter; [done|].
    intros y _. unfold leaf. by rewrite Hr.
Qed.

Lemma flat_delete (x : Comment) (rs : list Comment) (j : nat) :
  flat x → replies x = Some rs → flat (set_replies x (Some (delete j rs))).
Proof.
  unfold flat. intros H Hr. rewrite Hr in H. simpl in *.
  apply forallb_leaf_Forall, Forall_delete. by apply forallb_leaf_Forall.
Qed.

Lemma flat_push_top (new : Comment) (i : nat) (cs : list Comment) :
  leaf new = true → Forall flat cs → Forall flat (assign (pushReply new) (InTop i) cs).
Proof.
  intros Hn Hcs. simpl. apply Forall_alter; [done|].
  intros x _. unfold flat. simpl. rewrite forallb_app. intros ->. simpl.
  by rewrite Hn.
Qed.

Lemma step_flat (d : Data) (o : Op) :
  Forall flat (comments d) →
  match o with
  | AddReply _ parentId _ _ =>
      ∀ i j, findComment parentId (comments d) ≠ Some (InReplies i j)
  | _ => True
  end →
  Forall flat (comments (step d o)).
Proof.
  intros Hd Ho. destruct o as [e text|e p rt ct|i ct|i a|i]; simpl.
  - unfold handleAddComment. destruct (negb _); [done|]. simpl.
    apply Forall_app. split; [done|]. by repeat constructor.
  - unfold handleCreateReply.
    destruct (findComment p (comments d)) as [[k|k j]|] eqn:Ef; [| |done].
    + by apply flat_push_top.
    + by destruct (Ho k j).
  - unfold handleUpdateComment. destruct (findComment i (comments d)); [|done].
    simpl. apply Forall_assign; [done|..];
      by apply (flat_write (λ c, set_content c ct)).
  - unfold handleVote. destruct (findComment i (comments d)); [|done].
    simpl. apply Forall_assign; [done|..]; apply flat_write, voted_replies.
  - unfold handleDeleteConfirm, noTarget. destruct (i =? 0)%Z; [done|].
    destruct (findComment i (comments d)); [|done]. simpl.
    apply Forall_removeComment; [done|]. apply flat_delete.
Qed.

(** A two-level tree stays a two-level tree along every run in which no
    reply is addressed to the id of a reply: additions, edits, votes,
    removals and replies to top-level comments (or to ids not found) never
    add a third level. *)
Theorem two_levels_kept (d : Data) (ops : list Op) :
  two_level (comments d) = true →
  top_targeted d ops →
  two_level (comments (run d ops)) = true.
Proof.
  rewrite !two_level_flat. revert d.
  induction ops as [|o ops IH]; intros d Hd Ht; [done|].
  destruct Ht as [Ho Ht]. apply IH; [|done]. by apply step_flat.
Qed.

Lemma two_levels_kept_witness :
  two_level (comments sampleTree) = true
  ∧ top_targeted sampleTree
      [AddReply sampleEnv 2 "maxblagun" "Good question"; Vote 3 "upvote"]
  ∧ two_level (comments (run sampleTree
      [AddReply sampleEnv 2 "maxblagun" "Good question"; Vote 3 "upvote"])) = true.
Proof.
  assert (H1 : two_level (comments sampleTree) = true) by (vm_compute; reflexivity).
  assert (H2 : top_targeted sampleTree
                 [AddReply sampleEnv 2 "maxblagun" "Good question"; Vote 3 "upvote"]).
  { split; [|by split]. intros i j.
    replace (findComment 2 (comments sampleTree)) with (Some (InTop 1))
      by (vm_compute; reflexivity).
    discriminate. }
  split; [exact H1|]. split; [exact H2|].
  exact (two_levels_kept sampleTree _ H1 H2).
Defined.

(** * [Utils] *)

(** ** Ids *)

Lemma Qfloor_thousandth (rnd : Q) :
  (0 <= rnd)%Q → (rnd < 1)%Q → 0 ≤ Qfloor (rnd * 1000) ≤ 999.
Proof.
  intros H0 H1. split.
  - change 0 with (Qfloor 0). apply Qfloor_resp_le.
    apply Qmult_le_0_compat; [done | discriminate].
  - assert (H : (rnd * 1000 < inject_Z 1000)%Q).
    { change (inject_Z 1000) with (1 * 1000)%Q.
      apply Qmult_lt_compat_r; [reflexivity | done]. }
    pose proof (Qfloor_le (rnd * 1000)) as Hf.
    assert (Hlt : (inject_Z (Qfloor (rnd * 1000)) < inject_Z 1000)%Q)
      by (eapply Qle_lt_trans; eassumption).
    rewrite <- Zlt_Qlt in Hlt. lia.
Qed.

(** An id from [generateId] lies within 999 of the clock reading, so two
    ids taken at least a second apart, the clock not running backwards,
    differ: the later one is the larger. *)
Theorem generateId_a_second_apart (now1 now2 : Z) (rnd1 rnd2 : Q) :
  (0 <= rnd1)%Q → (rnd1 < 1)%Q → (0 <= rnd2)%Q → (rnd2 < 1)%Q →
  now1 + 1000 ≤ now2 →
  now1 ≤ generateId now1 rnd1 ≤ now1 + 999
  ∧ generateId now1 rnd1 < generateId now2 rnd2.
Proof.
  intros H1 H2 H3 H4 Hn. unfold generateId.
  pose proof (Qfloor_thousandth rnd1 H1 H2).
  pose proof (Qfloor_thousandth rnd2 H3 H4). lia.
Qed.

Lemma generateId_a_second_apart_witness :
  (0 <= 1 # 2)%Q ∧ (1 # 2 < 1)%Q ∧ (0 <= 2 # 5)%Q ∧ (2 # 5 < 1)%Q
  ∧ 1700000000000 + 1000 ≤ 1700000001000
  ∧ generateId 1700000000000 (1 # 2) < generateId 1700000001000 (2 # 5).
Proof.
  assert (H1 : (0 <= 1 # 2)%Q) by (vm_compute; discriminate).
  assert (H2 : (1 # 2 < 1)%Q) by (vm_compute; reflexivity).
  assert (H3 : (0 <= 2 # 5)%Q) by (vm_compute; discriminate).
  assert (H4 : (2 # 5 < 1)%Q) by (vm_compute; reflexivity).
  assert (H5 : 1700000000000 + 1000 ≤ 1700000001000) by lia.
  repeat (split; [assumption|]).
  exact (proj2 (generateId_a_second_apart _ _ _ _ H1 H2 H3 H4 H5)).
Defined.

(** ** Trimming and validation *)

Lemma trimStart_no_lead (s : string) : no_lead (trimStart s).
Proof.
  induction s as [|a s IH]; simpl; [done|].
  destruct (is_space a) eqn:E; [done | exact E].
Qed.

Lemma trimStart_fixed (s : string) : no_lead s → trimStart s = s.
Proof. destruct s as [|a s]; simpl; [done|]. by intros ->. Qed.

Lemma trimEnd_no_lead (s : string) : no_lead s → no_lead (trimEnd s).
Proof.
  destruct s as [|a s]; simpl; [done|]. intros Ha.
  destruct (trimEnd s); simpl; [by rewrite Ha | done].
Qed.

Lemma trimEnd_idem (s : string) : trimEnd (trimEnd s) = trimEnd s.
Proof.
  induction s as [|a s IH]; simpl; [done|].
  destruct (trimEnd s) as [|b t] eqn:E.
  - destruct (is_space a) eqn:Ea; simpl; [done|]. by rewrite Ea.
  - simpl in *. by rewrite IH.
Qed.

Lemma trim_idem (s : string) : trim (trim s) = trim s.
Proof.
  unfold trim. rewrite (trimStart_fixed (trimEnd (trimStart s))).
  - apply trimEnd_idem.
  - apply trimEnd_no_lead, trimStart_no_lead.
Qed.

Lemma validateComment_length (s : string) :
  validateComment s = true ↔ (3 ≤ String.length (trim s) ≤ 1000)%nat.
Proof.
  unfold validateComment. simpl.
  destruct (String.eqb_spec (trim s) EmptyString) as [->|_].
  - simpl. split; [done | lia].
  - destruct (Nat.ltb_spec (String.length (trim s)) 3);
      [split; [done | lia]|].
    destruct (Nat.ltb_spec 1000 (String.length (trim s)));
      split; try done; lia.
Qed.

Lemma validateComment_trim (s : string) :
  validateComment (trim s) = validateComment s.
Proof. unfold validateComment. simpl. by rewrite trim_idem. Qed.

Lemma trimStart_pad (pre s : string) :
  all_space pre = true → trimStart (pre +:+ s) = trimStart s.
Proof.
  induction pre as [|a pre IH]; [done|]. simpl.
  intros [-> H]%andb_true_iff. by apply IH.
Qed.

Lemma trimEnd_all_space (post : string) :
  all_space post = true → trimEnd post = EmptyString.
Proof.
  induction post as [|a post IH]; [done|]. simpl.
  intros [-> H]%andb_true_iff. by rewrite IH.
Qed.

Lemma trimEnd_pad (s post : string) :
  all_space post = true → trimEnd (s +:+ post) = trimEnd s.
Proof.
  intros H. induction s as [|a s IH]; [by apply trimEnd_all_space|].
  change (String a s +:+ post) with (String a (s +:+ post)). simpl. by rewrite IH.
Qed.

Lemma trimEnd_no_trail (s : string) : no_trail s = true → trimEnd s = s.
Proof.
  induction s as [|a s IH]; [done|]. intros H.
  destruct s as [|b s].
  - simpl in *. by destruct (is_space a).
  - change (no_trail (String b s) = true) in H.
    change (trimEnd (String a (String b s)))
      with (match trimEnd (String b s) with
            | EmptyString =>
                if is_space a then EmptyString else String a EmptyString
            | t => String a t
            end).
    by rewrite (IH H).
Qed.

Lemma trim_padded (pre core post : string) :
  all_space pre = true → all_space post = true →
  no_lead core → no_trail core = true →
  trim (pre +:+ core +:+ post) = core.
Proof.
  intros Hpre Hpost Hl Ht. unfold trim. rewrite trimStart_pad by done.
  destruct core as [|a core].
  - change (EmptyString +:+ post) with post.
    assert (Hs : trimStart post = EmptyString).
    { clear -Hpost. induction post as [|b post IH]; [done|]. simpl in *.
      apply andb_true_iff in Hpost as [-> H]. by apply IH. }
    by rewrite Hs.
  - rewrite trimStart_fixed by exact Hl.
    rewrite trimEnd_pad by done. by apply trimEnd_no_trail.
Qed.

(** What [validateComment] looks at: for an ASCII text made of white
    space, a core that neither begins nor ends with white space, and white
    space again, trimming leaves the core, the verdict is that the core has
    between 3 and 1000 characters, whatever the white space around it, and
    a text already trimmed gets the verdict of the text it comes from. *)
Theorem validateComment_accepts (pre core post : string) :
  ascii_text core = true →
  all_space pre = true → all_space post = true →
  no_lead core → no_trail core = true →
  let text := pre +:+ core +:+ post in
  trim text = core
  ∧ (validateComment text = true ↔ (3 ≤ String.length core ≤ 1000)%nat)
  ∧ validateComment (trim text) = validateComment text.
Proof.
  intros _ Hpre Hpost Hl Ht text.
  assert (Hc : trim text = core) by by apply trim_padded.
  split; [exact Hc|]. split; [|apply validateComment_trim].
  by rewrite validateComment_length, Hc.
Qed.

Lemma validateComment_accepts_witness :
  ascii_text "Hello world" = true
  ∧ all_space "  " = true ∧ all_space (String "010" EmptyString) = true
  ∧ no_lead "Hello world" ∧ no_trail "Hello world" = true
  ∧ trim ("  " +:+ "Hello world" +:+ String "010" EmptyString) = "Hello world"
  ∧ validateComment ("  " +:+ "Hello world" +:+ String "010" EmptyString) = true.
Proof.
  assert (H1 : ascii_text "Hello world" = true) by (vm_compute; reflexivity).
  assert (H2 : all_space "  " = true) by (vm_compute; reflexivity).
  assert (H3 : all_space (String "010" EmptyString) = true)
    by (vm_compute; reflexivity).
  assert (H4 : no_lead "Hello world") by (vm_compute; reflexivity).
  assert (H5 : no_trail "Hello world" = true) by (vm_compute; reflexivity).
  repeat (split; [assumption|]).
  destruct (validateComment_accepts _ _ _ H1 H2 H3 H4 H5) as (Ht & Hv & _).
  split; [exact Ht|]. apply Hv. simpl. lia.
Defined.

(** * Adding *)

Lemma authorOf_currentUser (d : Data) : authorOf d = currentUser d.
Proof. unfold authorOf. by destruct (currentUser d). Qed.

(** [handleAddComment] on an ASCII text that [validateComment] refuses
    changes nothing.  On any other ASCII text it puts one comment at the
    end of the top-level sequence, after all that were there: with the
    trimmed text, score 0, an empty [replies], no addressee and the current
    user as author; the tree grows by one node. *)
Theorem handleAddComment_appends (e : Env) (text : string) (d : Data) :
  ascii_text text = true →
  let out := handleAddComment e text d in
  (validateComment text = false → out = (Invalid, d))
  ∧ (validateComment text = true →
     out.1 = Success
     ∧ comments out.2
       = comments d
         ++ [mkComment (generateId (dateNow e) (mathRandom e)) (trim text)
               (isoNow e) 0 None (currentUser d) (Some [])]
     ∧ tree_size (comments out.2) = S (tree_size (comments d))
     ∧ currentUser out.2 = currentUser d).
Proof.
  intros _ out. unfold out, handleAddComment.
  rewrite validateComment_trim.
  split; intros ->; simpl; [done|].
  rewrite authorOf_currentUser. repeat split.
  rewrite tree_size_app, tree_size_cons, node_size_unfold. simpl.
  change (tree_size []) with 0%nat. lia.
Qed.

Lemma handleAddComment_appends_witness :
  ascii_text "Hello world" = true
  ∧ validateComment "Hello world" = true
  ∧ (handleAddComment sampleEnv "Hello world" sampleTree).1 = Success
  ∧ tree_size (comments (handleAddComment sampleEnv "Hello world" sampleTree).2)
    = S (tree_size (comments sampleTree)).
Proof.
  assert (Ha : ascii_text "Hello world" = true) by (vm_compute; reflexivity).
  assert (H : validateComment "Hello world" = true) by (vm_compute; reflexivity).
  split; [exact Ha|]. split; [exact H|].
  destruct (proj2 (handleAddComment_appends sampleEnv "Hello world" sampleTree Ha) H)
    as (H1 & _ & H2 & _).
  split; [exact H1 | exact H2].
Defined.

(** * Replies *)

Lemma tree_size_alter_grow (g : Comment → Comment) (i : nat) (cs : list Comment)
    (x : Comment) (k : nat) :
  cs !! i = Some x → node_size (g x) = (node_size x + k)%nat →
  tree_size (alter g i cs) = (tree_size cs + k)%nat.
Proof.
  revert i. induction cs as [|c cs IH]; intros [|i] Hx Hg; try done.
  - injection Hx as ->. rewrite alter_head, !tree_size_cons, Hg. lia.
  - rewrite alter_tail, !tree_size_cons, (IH i Hx Hg). lia.
Qed.

Lemma node_size_pushReply (new x : Comment) :
  node_size (pushReply new x) = (node_size x + node_size new)%nat.
Proof.
  rewrite !(node_size_unfold (pushReply new x)), (node_size_unfold x). simpl.
  rewrite tree_size_app, tree_size_cons. change (tree_size []) with 0%nat. lia.
Qed.

Lemma assign_pushReply_size (new : Comment) (r : Ref) (cs : list Comment) (p : Comment) :
  deref cs r = Some p →
  tree_size (assign (pushReply new) r cs) = (tree_size cs + node_size new)%nat.
Proof.
  destruct r as [i|i j]; simpl.
  - intros Hp. eapply tree_size_alter_grow; [done|]. apply node_size_pushReply.
  - destruct (cs !! i) as [x|] eqn:Ex; [|done].
    destruct (replies x) as [rs|] eqn:Er; [|done]. intros Hp.
    eapply tree_size_alter_grow; [done|].
    rewrite (node_size_unfold (set_replies _ _)), (node_size_unfold x). simpl.
    rewrite Er. simpl.
    rewrite (tree_size_alter_grow _ _ _ _ _ Hp (node_size_pushReply new p)). lia.
Qed.

(** A write that keeps what each comment holds itself and only puts
    elements after those of a [replies] array leaves every comment that
    was there at its place, holding what it held. *)
Lemma deref_assign_own (f : Comment → Comment) (r r' : Ref) (cs : list Comment)
    (c' : Comment) :
  (∀ x, own (f x) = own x) →
  (∀ x j y, default [] (replies x) !! j = Some y →
            default [] (replies (f x)) !! j = Some y) →
  deref cs r' = Some c' →
  own <$> deref (assign f r cs) r' = Some (own c').
Proof.
  intros Hown Hpre. destruct r as [i|i j], r' as [i'|i' j']; simpl.
  - intros Hc. destruct (decide (i = i')) as [->|Hi].
    + rewrite list_lookup_alter_eq, Hc. simpl. by rewrite Hown.
    + rewrite list_lookup_alter_ne by done. by rewrite Hc.
  - destruct (cs !! i') as [x|] eqn:Ex; [|done].
    destruct (replies x) as [rs|] eqn:Er; [|done]. intros Hc.
    destruct (decide (i = i')) as [->|Hi].
    + rewrite list_lookup_alter_eq, Ex. simpl.
      pose proof (Hpre x j' c') as H. rewrite Er in H. simpl in H.
      specialize (H Hc). destruct (replies (f x)) as [rs'|]; simpl in *;
        [by rewrite H | by rewrite lookup_nil in H].
    + rewrite list_lookup_alter_ne by done. rewrite Ex, Er. by rewrite Hc.
  - intros Hc. destruct (decide (i = i')) as [->|Hi].
    + rewrite list_lookup_alter_eq, Hc. reflexivity.
    + rewrite list_lookup_alter_ne by done. by rewrite Hc.
  - destruct (cs !! i') as [x|] eqn:Ex; [|done].
    destruct (replies x) as [rs|] eqn:Er; [|done]. intros Hc.
    destruct (decide (i = i')) as [->|Hi].
    + rewrite list_lookup_alter_eq, Ex. simpl. rewrite Er. simpl.
      destruct (decide (j = j')) as [->|Hj].
      * rewrite list_lookup_alter_eq, Hc. simpl. by rewrite Hown.
      * rewrite list_lookup_alter_ne by done. by rewrite Hc.
    + rewrite list_lookup_alter_ne by done. rewrite Ex, Er. by rewrite Hc.
Qed.

(** [handleCreateReply] with a parent id the lookup finds adds exactly one
    node: the comment found gets the new reply as the last element of its
    [replies] (an empty one is made where there was none), the reply has
    score 0, the given addressee and content, the current user as author
    and no [replies]; every comment that was on the two levels is still at
    its place and holds what it held. *)
Theorem handleCreateReply_adds_one_reply
    (e : Env) (parentId : Z) (replyingTo content : string) (d : Data) (r : Ref) :
  findComment parentId (comments d) = Some r →
  let newReply :=
    mkComment (generateId (dateNow e) (mathRandom e)) content (isoNow e) 0
              (Some replyingTo) (currentUser d) None in
  let out := handleCreateReply e parentId replyingTo content d in
  out.1 = Success
  ∧ (∃ parent,
       deref (comments d) r = Some parent ∧ id parent = parentId
       ∧ deref (comments out.2) r
         = Some (set_replies parent
                   (Some (default [] (replies parent) ++ [newReply]))))
  ∧ (∀ r' c', deref (comments d) r' = Some c' →
              own <$> deref (comments out.2) r' = Some (own c'))
  ∧ tree_size (comments out.2) = S (tree_size (comments d))
  ∧ currentUser out.2 = currentUser d.
Proof.
  intros Hf newReply out. unfold out, handleCreateReply. rewrite Hf. simpl.
  rewrite authorOf_currentUser. fold newReply.
  destruct (findComment_deref _ _ _ Hf) as (p & Hp & Hi).
  split; [done|]. split.
  { exists p. split; [done|]. split; [done|].
    exact (deref_assign_same (pushReply newReply) _ _ _ Hp). }
  split.
  { intros r' c' Hc'. apply deref_assign_own; [done| |done].
    intros x j y Hy. simpl. by apply lookup_app_l_Some. }
  split; [|done].
  rewrite (assign_pushReply_size newReply r _ p Hp). simpl. lia.
Qed.

Lemma handleCreateReply_adds_one_reply_witness :
  findComment 2 (comments sampleTree) = Some (InTop 1)
  ∧ tree_size (comments (handleCreateReply sampleEnv 2 "maxblagun" "Good question"
                           sampleTree).2)
    = S (tree_size (comments sampleTree)).
Proof.
  assert (H : findComment 2 (comments sampleTree) = Some (InTop 1))
    by (vm_compute; reflexivity).
  split; [exact H|].
  destruct (handleCreateReply_adds_one_reply sampleEnv 2 "maxblagun" "Good question"
              sampleTree _ H) as (_ & _ & _ & H1 & _).
  exact H1.
Defined.

(** * Removing *)

Lemma ids2_app (l1 l2 : list Comment) : ids2 (l1 ++ l2) = ids2 l1 ++ ids2 l2.
Proof. apply bind_app. Qed.

Lemma ids_shallow_head (c : Comment) : id c ∈ ids_shallow c.
Proof. left. Qed.

(** After [removeComment] with an id that is on the two levels of a tree
    with distinct ids, the id is gone: the lookup no longer finds it.  The
    ids that remain are ids that were there, in the order they had; none
    is added. *)
Theorem removeComment_forgets_id (cs : list Comment) (i : Z) :
  NoDup (ids2 cs) →
  i ∈ ids2 cs →
  (i ∉ ids2 (removeComment i cs))
  ∧ findComment i (removeComment i cs) = None
  ∧ ids2 (removeComment i cs) `sublist_of` ids2 cs
  ∧ NoDup (ids2 (removeComment i cs)).
Proof.
  intros Hnd Hin.
  assert (Hsub : ids2 (removeComment i cs) `sublist_of` ids2 cs
                 ∧ (i ∉ ids2 (removeComment i cs))).
  { destruct (decide (i ∈ id <$> cs)) as [Htop|Htop].
    - destruct (removeComment_top i cs Htop) as (l1 & c & l2 & -> & Hc & _ & -> & _).
      rewrite ids2_app, ids2_cons in Hnd. rewrite !ids2_app, ids2_cons.
      split.
      + apply sublist_app; [done|]. by apply sublist_inserts_l.
      + apply NoDup_app in Hnd as (_ & H1 & H2).
        apply NoDup_app in H2 as (_ & H3 & _).
        intros [H|H]%elem_of_app.
        * apply (H1 i H). apply elem_of_app. left. rewrite <- Hc. left.
        * apply (H3 i); [|done]. rewrite <- Hc. left.
    - destruct (removeComment_reply i cs Htop Hin)
        as (l1 & c & l2 & rs1 & r & rs2 & -> & Hc & Hr & _ & _ & -> & _).
      rewrite ids2_app, ids2_cons in Hnd. rewrite !ids2_app, !ids2_cons.
      unfold ids_shallow in *. simpl. rewrite Hc in Hnd |- *. simpl in Hnd |- *.
      rewrite fmap_app, fmap_cons in Hnd. rewrite !fmap_app, fmap_cons.
      split.
      + apply sublist_app; [done|]. constructor. apply sublist_app; [|done].
        apply sublist_app; [done|]. by constructor.
      + apply NoDup_app in Hnd as (_ & H1 & H2).
        apply NoDup_cons in H2 as (H4 & H5).
        apply NoDup_app in H5 as (H6 & H3 & _).
        apply NoDup_app in H6 as (_ & H7 & H8).
        apply NoDup_cons in H8 as (H9 & _).
        assert (HiL : i ∈ (id <$> rs1) ++ id r :: (id <$> rs2)).
        { apply elem_of_app. right. rewrite Hr. left. }
        rewrite elem_of_app, elem_of_cons, !elem_of_app.
        intros [H|[->|[[H|H]|H]]].
        * apply (H1 i H). right. apply elem_of_app. by left.
        * apply H4. apply elem_of_app. by left.
        * apply (H7 i H). rewrite Hr. left.
        * apply H9. by rewrite Hr.
        * by apply (H3 i HiL). }
  destruct Hsub as [Hsub Hn]. split; [done|]. split; [by apply findComment_None|].
  split; [done|]. by eapply sublist_NoDup.
Qed.

Lemma removeComment_forgets_id_witness :
  NoDup (ids2 (comments sampleTree))
  ∧ 2 ∈ ids2 (comments sampleTree)
  ∧ findComment 2 (removeComment 2 (comments sampleTree)) = None.
Proof.
  assert (H1 : NoDup (ids2 (comments sampleTree))).
  { change (ids2 (comments sampleTree)) with [1; 2; 3; 4].
    apply (bool_decide_unpack _). vm_compute. exact I. }
  assert (H2 : 2 ∈ ids2 (comments sampleTree)).
  { change (ids2 (comments sampleTree)) with [1; 2; 3; 4]. right. left. }
  split; [exact H1|]. split; [exact H2|].
  exact (proj1 (proj2 (removeComment_forgets_id _ 2 H1 H2))).
Defined.

(** A top-level comment takes its replies with it: after [removeComment]
    with the id of a top-level comment of a tree with distinct ids, none
    of the ids of its replies is found any more. *)
Theorem removeComment_takes_replies (cs : list Comment) (k : nat) (c r : Comment) :
  NoDup (ids2 cs) →
  cs !! k = Some c →
  r ∈ default [] (replies c) →
  findComment (id r) (removeComment (id c) cs) = None.
Proof.
  intros Hnd Hc Hr. apply findComment_None.
  assert (Htop : id c ∈ id <$> cs).
  { apply list_elem_of_fmap. exists c. split; [done|]. by eapply list_elem_of_lookup_2. }
  destruct (removeComment_top (id c) cs Htop) as (l1 & x & l2 & Hcs & Hx & Hl1 & -> & _).
  assert (x = c) as ->.
  { subst cs. destruct (decide (k < length l1)%nat) as [Hlt|Hge].
    - rewrite lookup_app_l in Hc by done. exfalso. apply Hl1.
      apply list_elem_of_fmap. exists c. split; [done|]. by eapply list_elem_of_lookup_2.
    - destruct (decide (k = length l1)) as [->|Hne].
      + rewrite list_lookup_middle in Hc by done. congruence.
      + exfalso. rewrite ids2_app, ids2_cons in Hnd.
        apply NoDup_app in Hnd as (_ & _ & H2).
        apply NoDup_app in H2 as (_ & H3 & _).
        apply (H3 (id x)); [left|]. rewrite Hx.
        rewrite lookup_app_r in Hc by lia.
        destruct (k - length l1)%nat as [|k'] eqn:Ek; [lia|]. simpl in Hc.
        apply list_elem_of_bind. exists c. split; [left|].
        by eapply list_elem_of_lookup_2. }
  subst cs. rewrite ids2_app, ids2_cons in Hnd. rewrite ids2_app.
  apply NoDup_app in Hnd as (_ & H1 & H2). apply NoDup_app in H2 as (_ & H3 & _).
  assert (Hin : id r ∈ ids_shallow c).
  { right. apply list_elem_of_fmap. by exists r. }
  intros [H|H]%elem_of_app.
  - apply (H1 _ H). by apply elem_of_app; left.
  - by apply (H3 _ Hin).
Qed.

Lemma removeComment_takes_replies_witness :
  NoDup (ids2 (comments sampleTree))
  ∧ comments sampleTree !! 1%nat = Some (nth 1 (comments sampleTree) sampleReply)
  ∧ sampleReply ∈ default [] (replies (nth 1 (comments sampleTree) sampleReply))
  ∧ findComment 3 (removeComment 2 (comments sampleTree)) = None.
Proof.
  assert (H1 : NoDup (ids2 (comments sampleTree))).
  { change (ids2 (comments sampleTree)) with [1; 2; 3; 4].
    apply (bool_decide_unpack _). vm_compute. exact I. }
  pose (c := nth 1 (comments sampleTree) sampleReply).
  assert (H2 : comments sampleTree !! 1%nat = Some c) by (vm_compute; reflexivity).
  assert (H3 : sampleReply ∈ default [] (replies c)) by left.
  split; [exact H1|]. split; [exact H2|]. split; [exact H3|].
  change (findComment (id sampleReply) (removeComment (id c) (comments sampleTree))
          = None).
  exact (removeComment_takes_replies (comments sampleTree) 1 c sampleReply H1 H2 H3).
Defined.

(** [handleDeleteConfirm] removes something exactly when a target is set,
    the target is not the number 0 (which [!this.deleteTargetId] takes for
    no target), and the lookup finds it; it then does what [removeComment]
    does, and in every other case it leaves the tree as it is.  So a
    comment whose id is 0 cannot be removed through it. *)
Theorem handleDeleteConfirm_cases (target : option Z) (d : Data) :
  let out := handleDeleteConfirm target d in
  (out.1 = Success
   ↔ ∃ i, target = Some i ∧ i ≠ 0 ∧ i ∈ ids2 (comments d))
  ∧ (∀ i, target = Some i → out.1 = Success →
          out.2 = set_comments d (removeComment i (comments d)))
  ∧ (out.1 ≠ Success → out = (NotFound, d))
  ∧ handleDeleteConfirm (Some 0) d = (NotFound, d).
Proof.
  intros out. unfold out, handleDeleteConfirm, noTarget.
  destruct target as [i|]; simpl.
  - destruct (Z.eqb_spec i 0) as [->|Hi]; simpl.
    + split; [split; [done | by intros (? & [= <-] & ? & _)]|]. by repeat split.
    + destruct (findComment i (comments d)) as [r|] eqn:Ef; simpl.
      * split; [|split; [by intros ? [= <-] | by split]].
        split; [|done]. intros _. exists i. split; [done|]. split; [done|].
        destruct (decide (i ∈ ids2 (comments d))) as [|Hn]; [done|].
        apply findComment_None in Hn. congruence.
      * apply findComment_None in Ef.
        split; [split; [done | by intros (? & [= <-] & _ & ?)]|]. by repeat split.
  - split; [split; [done | by intros (? & ? & _)]|]. by repeat split.
Qed.

(** * The order of display *)

Lemma insertByScore_perm (c : Comment) (l : list Comment) :
  insertByScore c l ≡ₚ c :: l.
Proof.
  induction l as [|x l IH]; simpl; [done|].
  destruct (score c <? score x); [|done].
  rewrite IH. apply Permutation_swap.
Qed.

Lemma insertByScore_sorted (c : Comment) (l : list Comment) :
  StronglySorted (λ a b, score b ≤ score a) l →
  StronglySorted (λ a b, score b ≤ score a) (insertByScore c l).
Proof.
  induction 1 as [|x l Hl IH Hx]; simpl.
  - by repeat constructor.
  - destruct (Z.ltb_spec (score c) (score x)) as [Hlt|Hge].
    + constructor; [done|]. rewrite insertByScore_perm.
      constructor; [lia | done].
    + constructor; [by constructor|]. constructor; [done|].
      eapply Forall_impl; [exact Hx|]. intros y Hy. simpl in *. lia.
Qed.

Lemma insertByScore_filter (s : Z) (c : Comment) (l : list Comment) :
  filter (λ x, score x = s) (insertByScore c l)
  = filter (λ x, score x = s) (c :: l).
Proof.
  induction l as [|x l IH]; simpl; [done|].
  destruct (Z.ltb_spec (score c) (score x)) as [Hlt|Hge]; [|done].
  rewrite (filter_cons _ x), IH, !filter_cons.
  destruct (decide (score c = s)), (decide (score x = s)); try done. lia.
Qed.

Lemma sortedComments_cons (c : Comment) (cs : list Comment) :
  sortedComments (c :: cs) = insertByScore c (sortedComments cs).
Proof. reflexivity. Qed.

Lemma sortedComments_perm (cs : list Comment) : sortedComments cs ≡ₚ cs.
Proof.
  induction cs as [|c cs IH]; [done|].
  by rewrite sortedComments_cons, insertByScore_perm, IH.
Qed.

(** [renderComments] shows the top-level comments as a rearrangement of the
    stored sequence, none lost and none twice, with the scores going down;
    comments with the same score are shown in the order in which they are
    stored. *)
Theorem sortedComments_order (cs : list Comment) :
  sortedComments cs ≡ₚ cs
  ∧ StronglySorted (λ a b, score b ≤ score a) (sortedComments cs)
  ∧ (∀ s, filter (λ x, score x = s) (sortedComments cs)
          = filter (λ x, score x = s) cs)
  ∧ length (sortedComments cs) = length cs.
Proof.
  split; [apply sortedComments_perm|]. split; [|split].
  - induction cs as [|c cs IH]; [constructor|].
    rewrite sortedComments_cons. by apply insertByScore_sorted.
  - intros s. induction cs as [|c cs IH]; [done|].
    by rewrite sortedComments_cons, insertByScore_filter, !filter_cons, IH.
  - by rewrite sortedComments_perm.
Qed.

(** * More about [Storage] *)

Section StorageFacts.

Variable JSON_parse : string → option JSON.
Variable JSON_stringify : JSON → string.
Variable JSON_stringify_pretty : JSON → string.
Variable setItem_ok : gmap string string → string → string → bool.
Variable toISOString : Z → string.

Local Abbreviation getData := (getData JSON_parse toISOString).
Local Abbreviation saveData := (saveData JSON_stringify setItem_ok).
Local Abbreviation importData := (importData JSON_parse JSON_stringify setItem_ok).
Local Abbreviation appImportData :=
  (appImportData JSON_parse JSON_stringify setItem_ok toISOString).
Local Abbreviation isStorageAvailable := (isStorageAvailable setItem_ok).
Local Abbreviation exportData := (exportData JSON_parse JSON_stringify_pretty toISOString).
Local Abbreviation resetData := (resetData toISOString).
Local Abbreviation initial := (getInitialDataJS toISOString).

(** [saveData] returns [true] exactly when the data passes [validateData]
    and the storage takes the write; it then holds the text of the data at
    the fixed key.  When it returns [false] the storage is as it was.
    Either way no other key is touched. *)
Theorem saveData_cases (data : JSON) (ls : LocalStorage) :
  ((saveData data ls).1 = true
   ↔ shape_valid (Some data)
     ∧ ∃ m, ls = Items m ∧ setItem_ok m STORAGE_KEY (JSON_stringify data) = true)
  ∧ ((saveData data ls).1 = true →
     getItem (saveData data ls).2 STORAGE_KEY = Ok (Some (JSON_stringify data)))
  ∧ ((saveData data ls).1 = false → (saveData data ls).2 = ls)
  ∧ (∀ k, k ≠ STORAGE_KEY → getItem (saveData data ls).2 k = getItem ls k).
Proof.
  unfold saveData, saveData, setItem.
  destruct (truthy (validateData (Some data))) eqn:Ev.
  - apply validateData_shape in Ev. destruct ls as [|m]; simpl.
    + split; [split; [done | by intros (_ & ? & ? & _)]|]. by repeat split.
    + destruct (setItem_ok m STORAGE_KEY (JSON_stringify data)) eqn:Eok; simpl.
      * split; [split; [by eauto | done]|]. split; [intros _; by rewrite lookup_insert_eq|].
        split; [done|]. intros k Hk. by rewrite lookup_insert_ne.
      * split; [split; [done | intros (_ & ? & [= <-] & ?); congruence]|].
        by repeat split.
  - simpl. split; [|by repeat split]. split; [done|].
    intros (Hs & _). apply validateData_shape in Hs. congruence.
Qed.

(** [getData] never throws and what it returns always passes
    [validateData].  It returns the hard-coded default when the storage is
    out of reach, when nothing or the empty text is stored at the fixed
    key, when the text does not parse and when the parsed value fails
    validation. *)
Theorem getData_defaults (ls : LocalStorage) (now : Z) :
  shape_valid (Some (getData ls now))
  ∧ (ls = Blocked → getData ls now = initial now)
  ∧ (∀ m, ls = Items m → m !! STORAGE_KEY = None → getData ls now = initial now)
  ∧ (∀ m, ls = Items m → m !! STORAGE_KEY = Some EmptyString →
          getData ls now = initial now)
  ∧ (∀ m s, ls = Items m → m !! STORAGE_KEY = Some s → JSON_parse s = None →
            getData ls now = initial now)
  ∧ (∀ m s data, ls = Items m → m !! STORAGE_KEY = Some s →
                 JSON_parse s = Some data → ¬ shape_valid (Some data) →
                 getData ls now = initial now).
Proof.
  split; [apply validateData_shape, getData_valid|].
  unfold getData, getData, getData_try.
  split; [by intros ->|]. split; [by intros m -> Hm; simpl; rewrite Hm|].
  split; [by intros m -> Hm; simpl; rewrite Hm|]. split.
  - intros m s -> Hm Hp. simpl. rewrite Hm. simpl.
    destruct (negb _); [by rewrite Hp | done].
  - intros m s data -> Hm Hp Hv. simpl. rewrite Hm. simpl.
    destruct (negb _); [|done]. rewrite Hp.
    destruct (truthy (validateData (Some data))) eqn:Ev; [|done].
    by apply validateData_shape in Ev.
Qed.

Lemma TEST_KEY_other : TEST_KEY ≠ STORAGE_KEY.
Proof. discriminate. Qed.

(** [isStorageAvailable] answers [false] exactly when the storage is out of
    reach or refuses the test write.  It never disturbs the saved data:
    the item at the fixed key, and so what [getData] returns, is the same
    afterwards; what it does not keep is an item that was stored at the
    test key. *)
Theorem isStorageAvailable_keeps_data (ls : LocalStorage) (now : Z) :
  ((isStorageAvailable ls).1 = true
   ↔ ∃ m, ls = Items m ∧ setItem_ok m TEST_KEY TEST_KEY = true)
  ∧ getItem (isStorageAvailable ls).2 STORAGE_KEY = getItem ls STORAGE_KEY
  ∧ getData (isStorageAvailable ls).2 now = getData ls now
  ∧ ((isStorageAvailable ls).1 = true →
     getItem (isStorageAvailable ls).2 TEST_KEY = Ok None)
  ∧ ((isStorageAvailable ls).1 = false → (isStorageAvailable ls).2 = ls).
Proof.
  unfold isStorageAvailable, isStorageAvailable, setItem.
  destruct ls as [|m]; simpl.
  - split; [split; [done | by intros (? & ? & _)]|]. by repeat split.
  - destruct (setItem_ok m TEST_KEY TEST_KEY) eqn:Eok; simpl.
    + assert (Hk : delete TEST_KEY (<[TEST_KEY:=TEST_KEY]> m) !! STORAGE_KEY
                   = m !! STORAGE_KEY).
      { rewrite lookup_delete_ne by apply TEST_KEY_other.
        by rewrite lookup_insert_ne by apply TEST_KEY_other. }
      split; [split; [by eauto | done]|]. split; [by rewrite Hk|].
      split; [by apply getData_fixed_key|]. split; [|done].
      intros _. by rewrite lookup_delete_eq.
    + split; [split; [done | intros (? & [= <-] & ?); congruence]|]. by repeat split.
Qed.

(** After [clearData] nothing is stored at the fixed key, so [getData]
    returns the hard-coded default; the other items stay.  [resetData]
    holds that default once confirmed and changes nothing when the
    confirmation is declined. *)
Theorem clearData_then_default (ls : LocalStorage) (held : JSON) (now : Z) :
  getData (clearData ls) now = initial now
  ∧ (∀ k, k ≠ STORAGE_KEY → getItem (clearData ls) k = getItem ls k)
  ∧ (resetData true held ls now).1 = getData (resetData true held ls now).2 now
  ∧ resetData false held ls now = (held, ls).
Proof.
  assert (H : getData (clearData ls) now = initial now).
  { unfold getData, getData, getData_try. destruct ls as [|m]; simpl; [done|].
    by rewrite lookup_delete_eq. }
  split; [done|]. split; [|by split].
  intros k Hk. destruct ls as [|m]; simpl; [done|]. by rewrite lookup_delete_ne.
Qed.

(** What [exportData] writes is always taken by [importData], as long as
    [JSON.parse] reads the exported text back: an export is the text of
    what [getData] returns, and that always passes validation. *)
Theorem exportData_importable (ls ls' : LocalStorage) (now : Z) :
  JSON_parse (JSON_stringify_pretty (getData ls now)) = Some (getData ls now) →
  (importData (exportData ls now) ls').1 = true.
Proof.
  intros Hp. unfold importData, importData, exportData, exportData.
  rewrite Hp. by rewrite getData_valid.
Qed.

(** [CommentsApp.importData]: a text that does not parse or fails
    validation leaves the data held and the storage as they were; a text
    that is accepted, written and read back replaces the data held by the
    imported one. *)
Theorem appImportData_cases (text : string) (held : JSON) (ls : LocalStorage) (now : Z) :
  ((∀ data, JSON_parse text = Some data → ¬ shape_valid (Some data)) →
   appImportData text held ls now = (held, ls))
  ∧ (∀ data m,
       JSON_parse text = Some data → shape_valid (Some data) →
       ls = Items m →
       setItem_ok m STORAGE_KEY (JSON_stringify data) = true →
       JSON_stringify data ≠ EmptyString →
       JSON_parse (JSON_stringify data) = Some data →
       (appImportData text held ls now).1 = data).
Proof.
  unfold appImportData, appImportData, importData, importData.
  split.
  - intros Hno. destruct (JSON_parse text) as [data|] eqn:Ep; [|done].
    destruct (truthy (validateData (Some data))) eqn:Ev; [|done].
    apply validateData_shape in Ev. by destruct (Hno data).
  - intros data m Hp Hv -> Hok Hne Hback. rewrite Hp.
    apply validateData_shape in Hv. rewrite Hv.
    rewrite (saveData_written _ _ _ _ Hv Hok). simpl.
    rewrite (getData_stored JSON_parse toISOString _ _ data now
               (lookup_insert_eq _ _ _) Hne Hback).
    by rewrite Hv.
Qed.

End StorageFacts.

Lemma exportData_importable_witness :
  sampleParse (sampleStringify (getData sampleParse sampleISO (Items ∅) 1700000000000))
  = Some (getData sampleParse sampleISO (Items ∅) 1700000000000)
  ∧ (importData sampleParse sampleStringify sampleSetItem
       (exportData sampleParse sampleStringify sampleISO (Items ∅) 1700000000000)
       (Items ∅)).1 = true.
Proof.
  assert (H : sampleParse
                (sampleStringify (getData sampleParse sampleISO (Items ∅) 1700000000000))
              = Some (getData sampleParse sampleISO (Items ∅) 1700000000000))
    by (vm_compute; reflexivity).
  split; [exact H|].
  exact (exportData_importable sampleParse sampleStringify sampleStringify
           sampleSetItem sampleISO (Items ∅) (Items ∅) 1700000000000 H).
Defined.

(** Every state the store can be in while the current user has a name can
    be saved: no operation touches the current user, and the tree as an
    object passes [validateData] whenever the user name is not empty. *)
Theorem run_keeps_savable (d : Data) (ops : list Op) :
  username (currentUser d) ≠ EmptyString →
  currentUser (run d ops) = currentUser d
  ∧ shape_valid (Some (toJS (run d ops))).
Proof.
  intros Hu.
  assert (Hc : currentUser (run d ops) = currentUser d).
  { revert d Hu. induction ops as [|o ops IH]; intros d Hu; [done|].
    assert (Hs : currentUser (step d o) = currentUser d).
    { destruct o as [e text|e p rt ct|i ct|i a|i]; simpl.
      - unfold handleAddComment. by destruct (negb _).
      - unfold handleCreateReply. by destruct (findComment _ _).
      - unfold handleUpdateComment. by destruct (findComment _ _).
      - unfold handleVote. by destruct (findComment _ _).
      - unfold handleDeleteConfirm, noTarget. destruct (i =? 0)%Z; [done|].
        by destruct (findComment _ _). }
    simpl. rewrite IH; [done | by rewrite Hs]. }
  split; [done|]. apply validateData_shape, toJS_valid. by rewrite Hc.
Qed.

Lemma run_keeps_savable_witness :
  username (currentUser sampleTree) ≠ EmptyString
  ∧ shape_valid (Some (toJS (run sampleTree [Vote 3 "upvote"; Remove 1]))).
Proof.
  assert (H : username (currentUser sampleTree) ≠ EmptyString) by discriminate.
  split; [exact H|]. exact (proj2 (run_keeps_savable sampleTree _ H)).
Defined.

(** * The seed document *)

Section SeedFacts.

Variable JSON_parse : string → option JSON.
Variable JSON_stringify : JSON → string.
Variable setItem_ok : gmap string string → string → string → bool.
Variable toISOString : Z → string.
Variable parseInt : string → option Z.
Variable convertArray : list JSON → result string.

Local Abbreviation processComments := (processComments toISOString parseInt convertArray).
Local Abbreviation convertToISODate_value :=
  (convertToISODate_value toISOString parseInt convertArray).
Local Abbreviation loadInitialData := (loadInitialData toISOString parseInt convertArray).
Local Abbreviation loadData :=
  (loadData JSON_parse JSON_stringify setItem_ok toISOString parseInt convertArray).

Lemma processComments_array (now : Z) (cs out : JSON) :
  processComments now cs = Ok out → ∃ l l', cs = JArr l ∧ out = JArr l'.
Proof.
  destruct cs as [| | | |l|]; try done. simpl.
  match goal with |- context [JArr <$> ?x] => destruct x as [l'|] end; [|done].
  intros [= <-]. eauto.
Qed.

(** One element of the array, as [processComments] rewrites it. *)
Lemma processComments_cons (now : Z) (c : JSON) (l : list JSON) :
  processComments now (JArr (c :: l))
  = match c with
    | JObj fields =>
        created ← convertToISODate_value now (field "createdAt" fields);
        replies ← match field "replies" fields with
                  | Some r => if truthy (Some r) then processComments now r
                              else Ok (JArr [])
                  | None => Ok (JArr [])
                  end;
        rest ← processComments now (JArr l);
        match rest with
        | JArr rest' =>
            Ok (JArr (JObj (set_field "replies" replies
                              (set_field "createdAt" (JStr created) fields))
                      :: rest'))
        | _ => Throw
        end
    | _ => Throw
    end.
Proof.
  destruct c as [| | | | |fields]; try reflexivity.
  simpl.
  destruct (convertToISODate_value now (field "createdAt" fields)) as [created|];
    [|reflexivity].
  simpl.
  match goal with
  | |- context [?F fields] =>
      assert (HF : ∀ fs, F fs
                = match field "replies" fs with
                  | Some r => if truthy (Some r) then processComments now r
                              else Ok (JArr [])
                  | None => Ok (JArr [])
                  end)
        by (intros fs; induction fs as [|[k r] fs IH];
            [reflexivity
            | simpl; destruct (String.eqb k "replies"); [reflexivity | exact IH]]);
      rewrite (HF fields); clear HF
  end.
  destruct (field "replies" fields) as [r|]; simpl.
  - destruct (truthy (Some r)) eqn:Et; simpl in Et; rewrite ?Et.
    + destruct (processComments now r) as [x|]; [|reflexivity]. simpl.
      match goal with
      | |- context [?E l] =>
          match type of E with
          | list JSON → result (list JSON) => destruct (E l)
          end
      end; reflexivity.
    + simpl. match goal with
      | |- context [?E l] =>
          match type of E with
          | list JSON → result (list JSON) => destruct (E l)
          end
      end; reflexivity.
  - match goal with
      | |- context [?E l] =>
          match type of E with
          | list JSON → result (list JSON) => destruct (E l)
          end
      end; reflexivity.
Qed.

Lemma field_set_field_other (k k' : string) (v : JSON) (fields : list (string * JSON)) :
  k' ≠ k → field k' (set_field k v fields) = field k' fields.
Proof. intros H. apply field_set_field_ne. congruence. Qed.

(** What [processComments] makes of an array: as many comments as it got,
    each an object that has a [createdAt] text and a [replies] array and
    whose other properties are those of the comment it came from.  It
    fails on anything but an array of objects. *)
Theorem processComments_shape (now : Z) (cs out : JSON) :
  processComments now cs = Ok out →
  ∃ l l', cs = JArr l ∧ out = JArr l'
    ∧ Forall2 (λ c c',
         ∃ fields fields' created replies,
           c = JObj fields ∧ c' = JObj fields'
           ∧ field "createdAt" fields' = Some (JStr created)
           ∧ field "replies" fields' = Some (JArr replies)
           ∧ ∀ k, k ≠ "createdAt" → k ≠ "replies" →
                  field k fields' = field k fields) l l'.
Proof.
  intros H. destruct (processComments_array now cs out H) as (l & l' & -> & ->).
  exists l, l'. split; [done|]. split; [done|].
  revert l' H. induction l as [|c l IH]; intros l' H.
  - injection H as <-. constructor.
  - rewrite processComments_cons in H.
    destruct c as [| | | | |fields]; try done.
    destruct (processComments now (JArr l)) as [rest|] eqn:El;
      destruct (convertToISODate_value now (field "createdAt" fields)) as [created|];
      destruct (match field "replies" fields with
                | Some r => _ | None => _ end) as [replies|] eqn:Er;
      try discriminate H.
    simpl in H.
    destruct (processComments_array now _ _ El) as (? & rest' & _ & ->).
    injection H as <-. constructor; [|by apply IH].
    assert (Hrep : ∃ rs, replies = JArr rs).
    { destruct (field "replies" fields) as [r|]; [|injection Er as <-; by eexists].
      destruct (truthy (Some r)); [|injection Er as <-; by eexists].
      destruct (processComments_array now _ _ Er) as (? & rs & _ & ->). by eexists. }
    destruct Hrep as [rs ->].
    eexists fields, _, created, rs. split; [done|]. split; [done|].
    split; [|split].
    + rewrite field_set_field_other by done. apply field_set_field_eq.
    + apply field_set_field_eq.
    + intros k Hk1 Hk2. by rewrite !field_set_field_other.
Qed.

(** [loadInitialData] always delivers an object with a [comments] array,
    whatever the fetch of the seed document brings; so does [loadData],
    which never throws: the application always has a sequence of comments
    to show. *)
Theorem loadData_has_comments (ls : LocalStorage) (seed : option JSON) (now : Z) :
  (∃ fields l,
     loadInitialData seed now = JObj fields ∧ field "comments" fields = Some (JArr l))
  ∧ (∃ r fields l,
       loadData ls seed now = Ok r
       ∧ loaded_data r = JObj fields ∧ field "comments" fields = Some (JArr l)).
Proof.
  assert (Hinit : ∃ fields l,
    loadInitialData seed now = JObj fields ∧ field "comments" fields = Some (JArr l)).
  { destruct (loadInitialData_cases toISOString parseInt convertArray seed now)
      as [(fields & cs & cs' & _ & _ & Hp & ->)|[_ ->]].
    - destruct (processComments_array now _ _ Hp) as (? & l' & _ & ->).
      exists (set_field "comments" (JArr l') fields), l'.
      split; [done|]. apply field_set_field_eq.
    - by eexists _, _. }
  split; [exact Hinit|].
  destruct (loadData_result JSON_parse JSON_stringify setItem_ok toISOString
              parseInt convertArray ls seed now) as (empty & _ & ->).
  destruct empty.
  - destruct Hinit as (fields & l & Hf & Hl). by eexists _, fields, l.
  - destruct (valid_has_comments _ (getData_valid JSON_parse toISOString ls now))
      as (fields & l & Hf & Hl).
    by eexists _, fields, l.
Qed.

End SeedFacts.

Lemma processComments_shape_witness :
  processComments sampleISO sampleParseInt sampleConvertArray 1700000000000
    (default JNull (prop (Some sampleSeed) "comments"))
  = Ok (default JNull
          (prop (Some (loadInitialData sampleISO sampleParseInt sampleConvertArray
                         (Some sampleSeed) 1700000000000)) "comments"))
  ∧ ∃ l l' : list JSON,
      default JNull (prop (Some sampleSeed) "comments") = JArr l
      ∧ length l = length l'.
Proof.
  assert (H : processComments sampleISO sampleParseInt sampleConvertArray 1700000000000
                (default JNull (prop (Some sampleSeed) "comments"))
              = Ok (default JNull
                      (prop (Some (loadInitialData sampleISO sampleParseInt
                                     sampleConvertArray (Some sampleSeed)
                                     1700000000000)) "comments")))
    by (vm_compute; reflexivity).
  split; [exact H|].
  destruct (processComments_shape sampleISO sampleParseInt sampleConvertArray
              1700000000000 _ _ H) as (l & l' & H1 & _ & H3).
  exists l, l'. split; [exact H1|]. exact (Forall2_length _ _ _ H3).
Defined.

(** * Times *)

Ltac pick_unit :=
  first [ split; [reflexivity | lia]
        | left; split; [reflexivity | lia]
        | right; pick_unit ].

(** What [formatTimeAgo] prints: ['just now'] for anything younger than a
    minute, a time in the future included; otherwise a number that is at
    least 1 and stays below the next unit, up to 59 minutes, 23 hours, 6
    days, 3 weeks of 7 days and 11 months of 28 days; years of 336 days
    beyond. *)
Theorem timeAgo_ranges (now date : Z) :
  (timeAgo now date = JustNow ↔ now - date < 60000)
  ∧ ∀ n unit, timeAgo now date = Ago n unit →
      1 ≤ n
      ∧ (unit = "minutes" ∧ n ≤ 59 ∧ n * 60000 ≤ now - date < (n + 1) * 60000
         ∨ unit = "hours" ∧ n ≤ 23 ∧ n * 3600000 ≤ now - date < (n + 1) * 3600000
         ∨ unit = "days" ∧ n ≤ 6 ∧ n * 86400000 ≤ now - date < (n + 1) * 86400000
         ∨ unit = "weeks" ∧ n ≤ 3 ∧ n * 604800000 ≤ now - date < (n + 1) * 604800000
         ∨ unit = "months" ∧ n ≤ 11
           ∧ n * 2419200000 ≤ now - date < (n + 1) * 2419200000
         ∨ unit = "years"
           ∧ n * 29030400000 ≤ now - date < (n + 1) * 29030400000).
Proof.
  unfold timeAgo. set (diff := (now - date) / 1000).
  assert (Hd : diff * 1000 ≤ now - date < (diff + 1) * 1000).
  { unfold diff. pose proof (Z.div_mod (now - date) 1000).
    pose proof (Z.mod_pos_bound (now - date) 1000). lia. }
  assert (Hq : ∀ u, 0 < u → (diff / u) * u ≤ diff < (diff / u + 1) * u).
  { intros u Hu. pose proof (Z.mul_div_le diff u Hu).
    pose proof (Z.mul_succ_div_gt diff u Hu). unfold Z.succ in *. nia. }
  split.
  - destruct (Z.ltb_spec diff 60); [split; [lia | done]|].
    split; [|lia]. by repeat case_match.
  - intros n unit.
    destruct (Z.ltb_spec diff 60); [done|].
    pose proof (Hq 60 ltac:(lia)). pose proof (Hq 3600 ltac:(lia)).
    pose proof (Hq 86400 ltac:(lia)). pose proof (Hq 604800 ltac:(lia)).
    pose proof (Hq 2419200 ltac:(lia)). pose proof (Hq 29030400 ltac:(lia)).
    destruct (Z.ltb_spec diff 3600); [intros [= <- <-]; split; [lia|]; pick_unit|].
    destruct (Z.ltb_spec diff 86400); [intros [= <- <-]; split; [lia|]; pick_unit|].
    destruct (Z.ltb_spec diff 604800); [intros [= <- <-]; split; [lia|]; pick_unit|].
    destruct (Z.ltb_spec diff 2419200); [intros [= <- <-]; split; [lia|]; pick_unit|].
    destruct (Z.ltb_spec diff 29030400); [intros [= <- <-]; split; [lia|]; pick_unit|].
    intros [= <- <-]. split; [lia|]. pick_unit.
Qed.

Lemma timeAgo_back (now n unitSeconds : Z) :
  (now - (now - n * (unitSeconds * 1000))) / 1000 = n * unitSeconds.
Proof.
  replace (now - (now - n * (unitSeconds * 1000))) with (n * unitSeconds * 1000) by lia.
  by apply Z.div_mul.
Qed.

Lemma timeAgo_months (now n : Z) :
  1 ≤ n ≤ 11 → timeAgo now (now - n * 2592000000) = Ago n "months".
Proof.
  intros Hn. unfold timeAgo.
  change 2592000000 with (2592000 * 1000). rewrite timeAgo_back.
  destruct (Z.ltb_spec (n * 2592000) 60); [lia|].
  destruct (Z.ltb_spec (n * 2592000) 3600); [lia|].
  destruct (Z.ltb_spec (n * 2592000) 86400); [lia|].
  destruct (Z.ltb_spec (n * 2592000) 604800); [lia|].
  destruct (Z.ltb_spec (n * 2592000) 2419200); [lia|].
  destruct (Z.ltb_spec (n * 2592000) 29030400); [|lia].
  f_equal. symmetry. apply (Z.div_unique _ _ n (n * 172800)); lia.
Qed.

Lemma timeAgo_weeks (now n : Z) :
  1 ≤ n ≤ 3 → timeAgo now (now - n * 604800000) = Ago n "weeks".
Proof.
  intros Hn. unfold timeAgo.
  change 604800000 with (604800 * 1000). rewrite timeAgo_back.
  destruct (Z.ltb_spec (n * 604800) 60); [lia|].
  destruct (Z.ltb_spec (n * 604800) 3600); [lia|].
  destruct (Z.ltb_spec (n * 604800) 86400); [lia|].
  destruct (Z.ltb_spec (n * 604800) 604800); [lia|].
  destruct (Z.ltb_spec (n * 604800) 2419200); [|lia].
  f_equal. by apply Z.div_mul.
Qed.

Lemma timeAgo_days (now n : Z) :
  1 ≤ n ≤ 6 → timeAgo now (now - n * 86400000) = Ago n "days".
Proof.
  intros Hn. unfold timeAgo.
  change 86400000 with (86400 * 1000). rewrite timeAgo_back.
  destruct (Z.ltb_spec (n * 86400) 60); [lia|].
  destruct (Z.ltb_spec (n * 86400) 3600); [lia|].
  destruct (Z.ltb_spec (n * 86400) 86400); [lia|].
  destruct (Z.ltb_spec (n * 86400) 604800); [|lia].
  f_equal. by apply Z.div_mul.
Qed.

Lemma timeAgo_hours (now n : Z) :
  1 ≤ n ≤ 23 → timeAgo now (now - n * 3600000) = Ago n "hours".
Proof.
  intros Hn. unfold timeAgo.
  change 3600000 with (3600 * 1000). rewrite timeAgo_back.
  destruct (Z.ltb_spec (n * 3600) 60); [lia|].
  destruct (Z.ltb_spec (n * 3600) 3600); [lia|].
  destruct (Z.ltb_spec (n * 3600) 86400); [|lia].
  f_equal. by apply Z.div_mul.
Qed.

Lemma timeAgo_minutes (now n : Z) :
  1 ≤ n ≤ 59 → timeAgo now (now - n * 60000) = Ago n "minutes".
Proof.
  intros Hn. unfold timeAgo.
  change 60000 with (60 * 1000). rewrite timeAgo_back.
  destruct (Z.ltb_spec (n * 60) 60); [lia|].
  destruct (Z.ltb_spec (n * 60) 3600); [|lia].
  f_equal. by apply Z.div_mul.
Qed.

Section TimeFacts.

Variable toISOString : Z → string.
Variable parseInt : string → option Z.

Local Abbreviation convertToISODate := (convertToISODate toISOString parseInt).

Lemma dateISO_ok (now t : Z) :
  0 ≤ now ≤ 8640000000000000 → now - 28512000000 ≤ t ≤ now →
  dateISO toISOString t = Ok (toISOString t).
Proof.
  intros Hn Ht. unfold dateISO.
  destruct (Z.leb_spec (Z.abs t) 8640000000000000); [done | lia].
Qed.

(** A relative time of the seed document comes back as it was written: on
    the same clock, the time [convertToISODate] computes for a text with
    the number [n] and the word month, week, day, hour or minute is shown
    by [formatTimeAgo] as [n] of the same unit, for 1 to 11 months, 1 to 3
    weeks, 1 to 6 days, 1 to 23 hours and 1 to 59 minutes; the words are
    looked for in this order.  A text with none of these words, a time in
    years for one, is taken for the present moment and shown as
    ['just now']. *)
Theorem seed_time_shown_again (now : Z) (s : string) (n : Z) :
  0 ≤ now ≤ 8640000000000000 →
  parseInt s = Some n →
  let shown (unitMs : Z) (unit : string) :=
    convertToISODate now s = Ok (toISOString (now - n * unitMs))
    ∧ timeAgo now (now - n * unitMs) = Ago n unit in
  (includes s "month" = true → 1 ≤ n ≤ 11 → shown 2592000000 "months")
  ∧ (includes s "month" = false → includes s "week" = true → 1 ≤ n ≤ 3 →
     shown 604800000 "weeks")
  ∧ (includes s "month" = false → includes s "week" = false →
     includes s "day" = true → 1 ≤ n ≤ 6 → shown 86400000 "days")
  ∧ (includes s "month" = false → includes s "week" = false →
     includes s "day" = false → includes s "hour" = true → 1 ≤ n ≤ 23 →
     shown 3600000 "hours")
  ∧ (includes s "month" = false → includes s "week" = false →
     includes s "day" = false → includes s "hour" = false →
     includes s "minute" = true → 1 ≤ n ≤ 59 → shown 60000 "minutes")
  ∧ (includes s "month" = false → includes s "week" = false →
     includes s "day" = false → includes s "hour" = false →
     includes s "minute" = false →
     convertToISODate now s = Ok (toISOString now) ∧ timeAgo now now = JustNow).
Proof.
  intros Hnow Hp shown. unfold shown, convertToISODate.
  rewrite Hp.
  split; [intros -> Hn; split; [apply (dateISO_ok now); lia | by apply timeAgo_months]|].
  split; [intros -> -> Hn; split; [apply (dateISO_ok now); lia | by apply timeAgo_weeks]|].
  split; [intros -> -> -> Hn; split; [apply (dateISO_ok now); lia | by apply timeAgo_days]|].
  split; [intros -> -> -> -> Hn; split; [apply (dateISO_ok now); lia | by apply timeAgo_hours]|].
  split; [intros -> -> -> -> -> Hn; split;
          [apply (dateISO_ok now); lia | by apply timeAgo_minutes]|].
  intros -> -> -> -> ->. split; [done|].
  unfold timeAgo. by rewrite Z.sub_diag.
Qed.

End TimeFacts.

Lemma seed_time_shown_again_witness :
  0 ≤ 1700000000000 ≤ 8640000000000000
  ∧ sampleParseInt "1 month ago" = Some 1
  ∧ timeAgo 1700000000000 (1700000000000 - 1 * 2592000000) = Ago 1 "months".
Proof.
  assert (H1 : 0 ≤ 1700000000000 ≤ 8640000000000000) by lia.
  assert (H2 : sampleParseInt "1 month ago" = Some 1) by reflexivity.
  split; [exact H1|]. split; [exact H2|].
  destruct (seed_time_shown_again sampleISO sampleParseInt _ _ _ H1 H2) as (H & _).
  exact (proj2 (H ltac:(vm_compute; reflexivity) ltac:(lia))).
Defined.

(** * The reply form *)



Lemma trimEnd_app (s t : string) :
  trimEnd t ≠ EmptyString → trimEnd (s +:+ t) = s +:+ trimEnd t.
Proof.
  intros Ht. induction s as [|a s IH]; [reflexivity|].
  change (String a s +:+ t) with (String a (s +:+ t)).
  change (String a s +:+ trimEnd t) with (String a (s +:+ trimEnd t)).
  simpl. rewrite IH.
  destruct (s +:+ trimEnd t) eqn:E; [|reflexivity].
  destruct s; simpl in E; [contradiction | discriminate].
Qed.

Lemma app_string_assoc (s t r : string) : (s +:+ t) +:+ r = s +:+ (t +:+ r).
Proof.
  induction s as [|a s IH]; [reflexivity|].
  change (String a ((s +:+ t) +:+ r) = String a (s +:+ (t +:+ r))). by rewrite IH.
Qed.

Lemma prefix_app (m x : string) : String.prefix m (m +:+ x) = true.
Proof.
  induction m as [|a m IH]; simpl; [by destruct x|].
  destruct (ascii_dec a a); [done | congruence].
Qed.


Lemma substring_all (x : string) : String.substring 0 (String.length x) x = x.
Proof. induction x as [|a x IH]; simpl; [done | by rewrite IH]. Qed.

Lemma substring_after (m x : string) :
  String.substring (String.length m)
    (String.length (m +:+ x) - String.length m) (m +:+ x) = x.
Proof.
  induction m as [|a m IH]; simpl.
  - rewrite Nat.sub_0_r. apply substring_all.
  - exact IH.
Qed.


(** A reply typed after the mention the form starts with: for a user name
    without white space and a text that does not begin with white space and
    passes [validateComment], both ASCII, [handleReplySubmit] dispatches
    the text without the mention, trimmed, for the parent and the
    addressee the form carries. *)
Theorem handleReplySubmit_strips_mention (u b : string) (parentId : Z) :
  ascii_text u = true → ascii_text b = true →
  no_space u = true →
  no_lead b →
  validateComment b = true →
  handleReplySubmit ("@" +:+ u +:+ " " +:+ b) parentId u
  = Some (mkReplyData parentId u (trim b)).
Proof.
  intros _ _ Hu Hb Hv.
  assert (Htb : trim b = trimEnd b) by (unfold trim; by rewrite trimStart_fixed).
  assert (Hne : trimEnd b ≠ EmptyString).
  { rewrite <- Htb. intros H.
    apply validateComment_length in Hv. rewrite H in Hv. simpl in Hv. lia. }
  unfold handleReplySubmit.
  assert (Hc : trim ("@" +:+ u +:+ " " +:+ b) = ("@" +:+ u +:+ " ") +:+ trimEnd b).
  { unfold trim. rewrite trimStart_fixed by done.
    change ("@" +:+ u +:+ " " +:+ b) with (String "@" (u +:+ " " +:+ b)).
    change (("@" +:+ u +:+ " ") +:+ trimEnd b)
      with (String "@" ((u +:+ " ") +:+ trimEnd b)).
    assert (Hin : trimEnd (u +:+ " " +:+ b) = (u +:+ " ") +:+ trimEnd b).
    { rewrite <- app_string_assoc. by apply trimEnd_app. }
    simpl. rewrite Hin. destruct ((u +:+ " ") +:+ trimEnd b) eqn:E; [|done].
    destruct u; discriminate E. }
  change (String.append "@" (String.append u " ")) with ("@" +:+ u +:+ " ").
  rewrite Hc, prefix_app, substring_after.
  assert (Ht : trim (trimEnd b) = trim b).
  { rewrite <- Htb. apply trim_idem. }
  rewrite Ht.
  by rewrite validateComment_trim, Hv.
Qed.

Lemma handleReplySubmit_strips_mention_witness :
  ascii_text "maxblagun" = true ∧ ascii_text "Good question" = true
  ∧ no_space "maxblagun" = true
  ∧ no_lead "Good question"
  ∧ validateComment "Good question" = true
  ∧ handleReplySubmit ("@" +:+ "maxblagun" +:+ " " +:+ "Good question") 2 "maxblagun"
    = Some (mkReplyData 2 "maxblagun" (trim "Good question")).
Proof.
  assert (Ha : ascii_text "maxblagun" = true) by (vm_compute; reflexivity).
  assert (Hb : ascii_text "Good question" = true) by (vm_compute; reflexivity).
  assert (H1 : no_space "maxblagun" = true) by (vm_compute; reflexivity).
  assert (H2 : no_lead "Good question") by (vm_compute; reflexivity).
  assert (H3 : validateComment "Good question" = true) by (vm_compute; reflexivity).
  split; [exact Ha|]. split; [exact Hb|].
  split; [exact H1|]. split; [exact H2|]. split; [exact H3|].
  exact (handleReplySubmit_strips_mention "maxblagun" "Good question" 2
           Ha Hb H1 H2 H3).
Defined.



(** * Lookup and removal together *)

(** [findComment] finds an id exactly when it is the id of a top-level
    comment or of one of their immediate replies, and what it returns is a
    comment with that id; when the ids are distinct it returns the place of
    every comment asked for by its id. *)
Theorem findComment_finds (cs : list Comment) (i : Z) :
  (findComment i cs = None ↔ i ∉ ids2 cs)
  ∧ (∀ r, findComment i cs = Some r → ∃ c, deref cs r = Some c ∧ id c = i)
  ∧ (NoDup (ids2 cs) →
     ∀ r c, deref cs r = Some c → findComment (id c) cs = Some r).
Proof.
  split; [apply findComment_None|]. split; [apply findComment_deref|].
  intros Hnd r c. by apply findComment_complete.
Qed.

Lemma removeReply_at (i : Z) (cs : list Comment) (k j : nat) :
  i ∉ (id <$> cs) →
  findComment i cs = Some (InReplies k j) →
  removeReply i cs = alter (λ c, set_replies c (delete j <$> replies c)) k cs.
Proof.
  revert k. induction cs as [|c cs IH]; intros k Htop Hf; [done|].
  rewrite fmap_cons, not_elem_of_cons in Htop. destruct Htop as [Hc Hcs].
  simpl in Hf. destruct (Z.eqb_spec (id c) i) as [|_]; [congruence|].
  simpl. destruct (replies c) as [rs|] eqn:Er; simpl in Hf.
  - destruct (findIndex i rs) as [j'|] eqn:Ej.
    + injection Hf as <- <-. rewrite alter_head. unfold set_replies. by rewrite Er.
    + apply fmap_Some in Hf as ([k'|k' j'] & Hf & Hs); [done|].
      injection Hs as -> ->. rewrite alter_tail. by rewrite (IH k' Hcs Hf).
  - apply fmap_Some in Hf as ([k'|k' j'] & Hf & Hs); [done|].
    injection Hs as -> ->. rewrite alter_tail. by rewrite (IH k' Hcs Hf).
Qed.

Lemma NoDup_top_ids (cs : list Comment) : NoDup (ids2 cs) → NoDup (id <$> cs).
Proof.
  induction cs as [|c cs IH]; [constructor|].
  rewrite ids2_cons, fmap_cons. intros (H1 & H2 & H3)%NoDup_app.
  apply NoDup_cons. split; [|by apply IH].
  intros (x & Hx & Hin)%list_elem_of_fmap. apply (H2 (id c)); [left|].
  apply list_elem_of_bind. exists x. split; [|done]. rewrite Hx. left.
Qed.

(** With distinct ids, [removeComment] removes the very comment
    [findComment] returns for the id: the top-level comment at the place
    found, or the reply at the place found in the [replies] of its parent,
    and nothing else. *)
Theorem removeComment_removes_what_is_found (cs : list Comment) (i : Z) :
  NoDup (ids2 cs) →
  (∀ k, findComment i cs = Some (InTop k) → removeComment i cs = delete k cs)
  ∧ (∀ k j, findComment i cs = Some (InReplies k j) →
       removeComment i cs
       = alter (λ c, set_replies c (delete j <$> replies c)) k cs).
Proof.
  intros Hnd. split.
  - intros k Hf. destruct (findComment_deref _ _ _ Hf) as (c & Hc & Hi).
    simpl in Hc. unfold removeComment.
    rewrite <- Hi, (findIndex_first cs k c (NoDup_top_ids cs Hnd) Hc). done.
  - intros k j Hf.
    assert (Htop : i ∉ (id <$> cs)).
    { intros (x & Hx & Hin)%list_elem_of_fmap.
      apply list_elem_of_lookup in Hin as [k' Hk'].
      pose proof (findComment_complete cs (InTop k') x Hnd Hk') as Hf'.
      rewrite <- Hx in Hf'. congruence. }
    unfold removeComment. apply findIndex_None in Htop as Hn. rewrite Hn.
    by apply removeReply_at.
Qed.

Lemma removeComment_removes_what_is_found_witness :
  NoDup (ids2 (comments sampleTree))
  ∧ findComment 3 (comments sampleTree) = Some (InReplies 1 0)
  ∧ removeComment 3 (comments sampleTree)
    = alter (λ c, set_replies c (delete 0%nat <$> replies c)) 1%nat
        (comments sampleTree).
Proof.
  assert (H1 : NoDup (ids2 (comments sampleTree))).
  { change (ids2 (comments sampleTree)) with [1; 2; 3; 4].
    apply (bool_decide_unpack _). vm_compute. exact I. }
  assert (H2 : findComment 3 (comments sampleTree) = Some (InReplies 1 0))
    by (vm_compute; reflexivity).
  split; [exact H1|]. split; [exact H2|].
  exact (proj2 (removeComment_removes_what_is_found _ 3 H1) _ _ H2).
Defined.

(** * Samples for the case theorems *)

Lemma appImportData_cases_witness :
  sampleParse sampleText = Some (toJS sampleTree)
  ∧ shape_valid (Some (toJS sampleTree))
  ∧ (appImportData sampleParse sampleStringify sampleSetItem sampleISO
       sampleText JNull (Items ∅) 1700000000000).1 = toJS sampleTree.
Proof.
  assert (H1 : sampleParse sampleText = Some (toJS sampleTree))
    by (vm_compute; reflexivity).
  assert (H2 : shape_valid (Some (toJS sampleTree)))
    by (apply validateData_shape; vm_compute; reflexivity).
  assert (H3 : sampleSetItem ∅ STORAGE_KEY (sampleStringify (toJS sampleTree)) = true)
    by reflexivity.
  assert (H4 : sampleStringify (toJS sampleTree) ≠ EmptyString)
    by (vm_compute; discriminate).
  split; [exact H1|]. split; [exact H2|].
  exact (proj2 (appImportData_cases sampleParse sampleStringify sampleSetItem
                  sampleISO sampleText JNull (Items ∅) 1700000000000)
           (toJS sampleTree) ∅ H1 H2 eq_refl H3 H4 H1).
Defined.

Lemma findComment_finds_witness :
  NoDup (ids2 (comments sampleTree))
  ∧ id <$> deref (comments sampleTree) (InReplies 1 1) = Some 4
  ∧ findComment 4 (comments sampleTree) = Some (InReplies 1 1).
Proof.
  assert (H1 : NoDup (ids2 (comments sampleTree))).
  { change (ids2 (comments sampleTree)) with [1; 2; 3; 4].
    apply (bool_decide_unpack _). vm_compute. exact I. }
  destruct (deref (comments sampleTree) (InReplies 1 1)) as [c|] eqn:H2;
    [|vm_compute in H2; discriminate].
  assert (H3 : id c = 4) by (vm_compute in H2; injection H2 as <-; reflexivity).
  split; [exact H1|]. split; [by rewrite <- H3|].
  rewrite <- H3.
  exact (proj2 (proj2 (findComment_finds (comments sampleTree) (id c))) H1 _ _ H2).
Defined.
